(** * csi-util: capacity negotiation, volume locks, address families and
      FSS volume handles

    A shallow embedding of [pkg/csi-util/utils.go] together with the proofs
    of the properties its specification states.  Go strings are byte strings
    and are modelled by [string]; [int64] values are modelled by [Z] (the
    functions below only compare them, so no wrap-around can occur); Go's
    [(value, error)] results are modelled by [result]. *)

From Stdlib Require Import ZArith Ascii String List Bool Lia.
From stdpp Require Import base decidable gmap strings list.

Local Open Scope string_scope.
Local Open Scope Z_scope.

(* stdpp keeps [String.append] folded; the proofs below compute with it. *)
#[local] Arguments String.append !_ _ / : simpl nomatch.

(** ** Results *)

Inductive result (A E : Type) : Type :=
| Ok (a : A)
| Err (e : E).
Arguments Ok {A E} a.
Arguments Err {A E} e.

(** ** Policy constants *)

Module client.
(** Modelled from the spec: the byte-size units of [pkg/oci/client], of
    which [utils.go] only uses the names; the specification fixes the
    minimum at 50 GiB and the maximum at 32 TiB. *)
Definition GiB : Z := 2 ^ 30.
Definition TiB : Z := 2 ^ 40.
End client.

Definition MinimumVolumeSizeInBytes : Z := 50 * client.GiB.
Definition MaximumVolumeSizeInBytes : Z := 32 * client.TiB.
Definition defaultVolumeSizeInBytes : Z := MinimumVolumeSizeInBytes.

Definition IscsiIpv6Prefix : string := "fd00:00c1::".
Definition Ipv6Stack : string := "IPv6".
Definition Ipv4Stack : string := "IPv4".
Definition LabelIpFamilyPreferred : string := "oci.oraclecloud.com/ip-family-preferred".
Definition LabelIpFamilyIpv4 : string := "oci.oraclecloud.com/ip-family-ipv4".
Definition LabelIpFamilyIpv6 : string := "oci.oraclecloud.com/ip-family-ipv6".

(** ** Go strings *)

Module strings.

Definition len (s : string) : Z := Z.of_nat (String.length s).

(** [s[lo:hi]] and [s[lo:]].  Go panics when the bounds are out of order
    or out of range; every use below is guarded so that they are not. *)
Definition slice (s : string) (lo hi : Z) : string :=
  String.substring (Z.to_nat lo) (Z.to_nat (hi - lo)) s.

Definition slice_from (s : string) (lo : Z) : string := slice s lo (len s).

(** [strings.Index(s, sep)] for a one-byte [sep]: the position of the
    first occurrence, -1 when there is none. *)
Fixpoint Index (s : string) (sep : ascii) : Z :=
  match s with
  | EmptyString => -1
  | String c rest =>
    if Ascii.eqb c sep then 0
    else let i := Index rest sep in if i <? 0 then -1 else i + 1
  end.

(** [strings.LastIndex(s, sep)] for a one-byte [sep]. *)
Fixpoint LastIndex (s : string) (sep : ascii) : Z :=
  match s with
  | EmptyString => -1
  | String c rest =>
    let i := LastIndex rest sep in
    if 0 <=? i then i + 1 else if Ascii.eqb c sep then 0 else -1
  end.

Definition inCutset (cutset : string) (c : ascii) : bool :=
  existsb (Ascii.eqb c) (list_ascii_of_string cutset).

Fixpoint TrimLeft (s cutset : string) : string :=
  match s with
  | EmptyString => EmptyString
  | String c rest => if inCutset cutset c then TrimLeft rest cutset else s
  end.

Fixpoint TrimRight (s cutset : string) : string :=
  match s with
  | EmptyString => EmptyString
  | String c rest =>
    match TrimRight rest cutset with
    | EmptyString => if inCutset cutset c then EmptyString else String c EmptyString
    | t => String c t
    end
  end.

(** [strings.Trim(s, cutset)] for an ASCII cutset: leading, then trailing
    bytes of the cutset are dropped. *)
Definition Trim (s cutset : string) : string := TrimRight (TrimLeft s cutset) cutset.

Definition foldByte (c : ascii) : ascii :=
  let n := nat_of_ascii c in
  if (65 <=? n)%nat && (n <=? 90)%nat then ascii_of_nat (n + 32) else c.

(** [strings.EqualFold] compares under Unicode simple case folding.  The
    code only compares against the ASCII words ["true"], ["IPv4"] and
    ["IPv6"], none of whose letters folds with a rune outside ASCII (only
    the letters k and s do), so the comparison is the byte-wise one modulo
    the case of ASCII letters. *)
Fixpoint EqualFold (s t : string) : bool :=
  match s, t with
  | EmptyString, EmptyString => true
  | String a s', String b t' => Ascii.eqb (foldByte a) (foldByte b) && EqualFold s' t'
  | _, _ => false
  end.

End strings.

(** ** Regular expressions *)

Module regexp.

(** The fragment of Go's regexp syntax that [ValidateDNSName] uses, matched
    with derivatives.  A pattern anchored by [^] and [$] (no multi-line
    flag) matches exactly when the whole text is in its language. *)
Inductive re : Type :=
| Void
| Eps
| Class (p : ascii → bool)
| Cat (r1 r2 : re)
| Alt (r1 r2 : re)
| Star (r : re).

Definition Plus (r : re) : re := Cat r (Star r).

(** [r{n,}] *)
Fixpoint AtLeast (n : nat) (r : re) : re :=
  match n with
  | O => Star r
  | S n' => Cat r (AtLeast n' r)
  end.

Fixpoint nullable (r : re) : bool :=
  match r with
  | Void => false
  | Eps => true
  | Class _ => false
  | Cat r1 r2 => nullable r1 && nullable r2
  | Alt r1 r2 => nullable r1 || nullable r2
  | Star _ => true
  end.

Fixpoint deriv (c : ascii) (r : re) : re :=
  match r with
  | Void => Void
  | Eps => Void
  | Class p => if p c then Eps else Void
  | Cat r1 r2 =>
    if nullable r1 then Alt (Cat (deriv c r1) r2) (deriv c r2)
    else Cat (deriv c r1) r2
  | Alt r1 r2 => Alt (deriv c r1) (deriv c r2)
  | Star r1 => Cat (deriv c r1) (Star r1)
  end.

Fixpoint MatchAnchored (r : re) (s : string) : bool :=
  match s with
  | EmptyString => nullable r
  | String c rest => MatchAnchored (deriv c r) rest
  end.

(** The character range [[lo-hi]]. *)
Definition between (lo hi c : ascii) : bool :=
  (nat_of_ascii lo <=? nat_of_ascii c)%nat && (nat_of_ascii c <=? nat_of_ascii hi)%nat.

Definition Char (c : ascii) : re := Class (Ascii.eqb c).

End regexp.

(** ** Go's net package: IP addresses *)

Module net.

(** The part of the Go standard library that [utils.go] calls: [net.ParseIP]
    (which is [netip.ParseAddr] without zone, widened to 16 bytes), [IP.To4],
    [IP.To16] and [IP.String], written after the library's sources, loop by
    loop.

    [net.IP] is a byte slice: nil, 4 bytes or 16 bytes.  Bytes are
    integers in [0, 256); nil is the empty list. *)
Definition IP : Type := list Z.

Definition IPv4len : nat := 4.
Definition IPv6len : nat := 16.

Definition isNil (ip : IP) : bool :=
  match ip with [] => true | _ => false end.

Definition byteOf (c : ascii) : Z := Z.of_nat (nat_of_ascii c).

Definition isDigit (c : ascii) : bool := (48 <=? byteOf c) && (byteOf c <=? 57).

Definition hexVal (c : ascii) : option Z :=
  let b := byteOf c in
  if (48 <=? b) && (b <=? 57) then Some (b - 48)
  else if (97 <=? b) && (b <=? 102) then Some (b - 97 + 10)
  else if (65 <=? b) && (b <=? 70) then Some (b - 65 + 10)
  else None.

Definition isEmpty (s : string) : bool :=
  match s with EmptyString => true | _ => false end.

(** [netip.parseIPv4Fields]: the loop over the bytes of the text.  [prev]
    is the byte before the current one ([None] at position 0), [rest] being
    empty says that the current byte is the last one. *)
Fixpoint parseIPv4Fields (prev : option ascii) (val pos digLen : Z)
         (fields : list Z) (s : string) : option (list Z) :=
  match s with
  | EmptyString =>
    if pos <? 3 then None else Some (<[3%nat := val mod 256]> fields)
  | String c rest =>
    if isDigit c then
      if (digLen =? 1) && (val =? 0) then None
      else
        let val := val * 10 + byteOf c - 48 in
        if 255 <? val then None
        else parseIPv4Fields (Some c) val pos (digLen + 1) fields rest
    else if Ascii.eqb c "." then
      if negb (bool_decide (is_Some prev)) || isEmpty rest
         || bool_decide (prev = Some "."%char) then None
      else if pos =? 3 then None
      else parseIPv4Fields (Some c) 0 (pos + 1) 0
                           (<[Z.to_nat pos := val mod 256]> fields) rest
    else None
  end.

Definition parseIPv4 (s : string) : option (list Z) :=
  parseIPv4Fields None 0 0 0 [0; 0; 0; 0] s.

(** The hex-number loop of [netip.parseIPv6]: the number of digits read,
    their value, and the text that follows them. *)
Fixpoint scanHex (off acc : Z) (s : string) : option (Z * Z * string) :=
  match s with
  | EmptyString => Some (off, acc, s)
  | String c rest =>
    match hexVal c with
    | None => Some (off, acc, s)
    | Some d =>
      let acc := (acc * 16 + d) mod 2 ^ 32 in
      if 3 <? off then None
      else if 65535 <? acc then None
      else scanHex (off + 1) acc rest
    end
  end.

Definition startsWith (c : ascii) (s : string) : bool :=
  match s with String a _ => Ascii.eqb a c | EmptyString => false end.

Definition tail (s : string) : string :=
  match s with String _ rest => rest | EmptyString => EmptyString end.

(** [dst[at:at+len(src)] = src], as [copy(dst[at:], src)] does when the
    source fits. *)
Definition copyAt (dst : list Z) (at_ : nat) (src : list Z) : list Z :=
  (take at_ dst ++ take (length dst - at_) src ++ drop (at_ + length src) dst)%list.

(** The main loop of [netip.parseIPv6], [for i < 16]; every round writes
    two bytes or leaves the loop, so eight rounds are enough.  The result
    is the state on leaving the loop: remaining text, bytes, position of
    the ellipsis (-1 when there is none) and [i]. *)
Fixpoint parseIPv6Loop (rounds : nat) (s : string) (ip : list Z) (ellipsis i : Z)
  : option (string * list Z * Z * Z) :=
  match rounds with
  | O => Some (s, ip, ellipsis, i)
  | S rounds' =>
    if negb (i <? 16) then Some (s, ip, ellipsis, i)
    else
      match scanHex 0 0 s with
      | None => None
      | Some (off, acc, after) =>
        if off =? 0 then None
        else if startsWith "." after then
          if (ellipsis <? 0) && negb (i =? 12) then None
          else if 16 <? i + 4 then None
          else
            match parseIPv4 s with
            | None => None
            | Some fields =>
              Some (EmptyString, copyAt ip (Z.to_nat i) fields, ellipsis, i + 4)
            end
        else
          let ip := <[Z.to_nat i := Z.shiftr acc 8 mod 256]> ip in
          let ip := <[Z.to_nat (i + 1) := acc mod 256]> ip in
          let i := i + 2 in
          let s := after in
          if isEmpty s then Some (s, ip, ellipsis, i)
          else if negb (startsWith ":" s) then None
          else if isEmpty (tail s) then None
          else
            let s := tail s in
            if startsWith ":" s then
              if 0 <=? ellipsis then None
              else
                let ellipsis := i in
                let s := tail s in
                if isEmpty s then Some (s, ip, ellipsis, i)
                else parseIPv6Loop rounds' s ip ellipsis i
            else parseIPv6Loop rounds' s ip ellipsis i
      end
  end.

(** Expanding the ellipsis: the [n] bytes parsed after it move to the end
    and the gap is cleared. *)
Definition expandEllipsis (ip : list Z) (ellipsis i : Z) : list Z :=
  let e := Z.to_nat ellipsis in
  let n := Z.to_nat (16 - i) in
  (take e ip ++ replicate n 0 ++ take (Z.to_nat i - e) (drop e ip))%list.

Definition zeros16 : list Z := replicate 16 0.

(** [netip.parseIPv6] on a text without zone. *)
Definition parseIPv6 (s : string) : option (list Z) :=
  let '(s, ellipsis, leading) :=
    if startsWith ":" s && startsWith ":" (tail s) then (tail (tail s), 0, true)
    else (s, -1, false) in
  if leading && isEmpty s then Some zeros16
  else
    match parseIPv6Loop 8 s zeros16 ellipsis 0 with
    | None => None
    | Some (s, ip, ellipsis, i) =>
      if negb (isEmpty s) then None
      else if i <? 16 then
        if ellipsis <? 0 then None else Some (expandEllipsis ip ellipsis i)
      else if 0 <=? ellipsis then None
      else Some ip
    end.

Definition v4InV6Prefix : list Z := [0; 0; 0; 0; 0; 0; 0; 0; 0; 0; 255; 255].

(** [netip.ParseAddr] followed by [As16]: the first of ['.'], [':'] and
    ['%'] decides how the text is read. *)
Fixpoint parseAddr (whole s : string) : option (list Z) :=
  match s with
  | EmptyString => None
  | String c rest =>
    if Ascii.eqb c "." then
      match parseIPv4 whole with
      | Some fields => Some (v4InV6Prefix ++ fields)%list
      | None => None
      end
    else if Ascii.eqb c ":" then
      (* a zone, empty or not, makes [net.ParseIP] return nil *)
      if 0 <=? strings.Index whole "%" then None else parseIPv6 whole
    else if Ascii.eqb c "%" then None
    else parseAddr whole rest
  end.

(** [net.ParseIP]: 16 bytes, or nil. *)
Definition ParseIP (s : string) : IP :=
  match parseAddr s s with
  | Some ip => ip
  | None => []
  end.

Definition allZero (l : list Z) : bool := forallb (Z.eqb 0) l.

Definition To4 (ip : IP) : IP :=
  if bool_decide (length ip = IPv4len) then ip
  else if bool_decide (length ip = IPv6len) && allZero (take 10 ip)
          && bool_decide (ip !! 10%nat = Some 255) && bool_decide (ip !! 11%nat = Some 255)
  then take 4 (drop 12 ip)
  else [].

Definition To16 (ip : IP) : IP :=
  if bool_decide (length ip = IPv4len) then (v4InV6Prefix ++ ip)%list
  else if bool_decide (length ip = IPv6len) then ip
  else [].

Definition digits : string := "0123456789abcdef".

Definition digit (n : Z) : string :=
  String.substring (Z.to_nat n) 1 digits.

(** [netip.appendHex]: a 16-bit group in lower-case hex, no leading zeros. *)
Definition appendHex (x : Z) : string :=
  ((if 4096 <=? x then digit (Z.shiftr x 12) else "")
   ++ (if 256 <=? x then digit (Z.land (Z.shiftr x 8) 15) else "")
   ++ (if 16 <=? x then digit (Z.land (Z.shiftr x 4) 15) else "")
   ++ digit (Z.land x 15)).

(** [netip.appendDecimal]: a byte in decimal. *)
Definition appendDecimal (x : Z) : string :=
  ((if 100 <=? x then digit (x / 100) else "")
   ++ (if 10 <=? x then digit (x / 10 mod 10) else "")
   ++ digit (x mod 10)).

Definition v6u16 (ip : IP) (i : Z) : Z :=
  Z.lor (Z.shiftl (nth (Z.to_nat (2 * i)) ip 0) 8) (nth (Z.to_nat (2 * i + 1)) ip 0).

(** The inner loop [for j < 8 && ip.v6u16(j) == 0 { j++ }]. *)
Fixpoint zeroRunEnd (rounds : nat) (ip : IP) (j : Z) : Z :=
  match rounds with
  | O => j
  | S rounds' =>
    if (j <? 8) && (v6u16 ip j =? 0) then zeroRunEnd rounds' ip (j + 1) else j
  end.

(** The first loop of [appendTo6]: the longest run of at least two zero
    groups, the first one among equals. *)
Fixpoint longestZeroRun (rounds : nat) (ip : IP) (i zeroStart zeroEnd : Z) : Z * Z :=
  match rounds with
  | O => (zeroStart, zeroEnd)
  | S rounds' =>
    let j := zeroRunEnd 8 ip i in
    let l := j - i in
    if (2 <=? l) && (zeroEnd - zeroStart <? l)
    then longestZeroRun rounds' ip (i + 1) i j
    else longestZeroRun rounds' ip (i + 1) zeroStart zeroEnd
  end.

(** The second loop of [appendTo6], [for i < 8]. *)
Fixpoint appendGroups (rounds : nat) (ip : IP) (zeroStart zeroEnd i : Z) : string :=
  match rounds with
  | O => ""
  | S rounds' =>
    if negb (i <? 8) then ""
    else if i =? zeroStart then
      ("::" ++ (if 8 <=? zeroEnd then ""
                else appendHex (v6u16 ip zeroEnd)
                     ++ appendGroups rounds' ip zeroStart zeroEnd (zeroEnd + 1)))
    else
      ((if 0 <? i then ":" else "")
       ++ appendHex (v6u16 ip i)
       ++ appendGroups rounds' ip zeroStart zeroEnd (i + 1))
  end.

Definition appendTo6 (ip : IP) : string :=
  let '(zeroStart, zeroEnd) := longestZeroRun 8 ip 0 255 255 in
  appendGroups 8 ip zeroStart zeroEnd 0.

Definition appendTo4 (ip : IP) : string :=
  (appendDecimal (nth 0 ip 0) ++ "." ++ appendDecimal (nth 1 ip 0) ++ "."
   ++ appendDecimal (nth 2 ip 0) ++ "." ++ appendDecimal (nth 3 ip 0)).

Fixpoint hexString (ip : IP) : string :=
  match ip with
  | [] => ""
  | b :: rest => (digit (Z.shiftr b 4) ++ digit (Z.land b 15) ++ hexString rest)
  end.

(** [IP.String] *)
Definition String_ (ip : IP) : string :=
  if bool_decide (length ip = 0%nat) then "<nil>"
  else if negb (bool_decide (length ip = IPv4len)) && negb (bool_decide (length ip = IPv6len))
  then ("?" ++ hexString ip)
  else if bool_decide (length (To4 ip) = IPv4len) then appendTo4 (To4 ip)
  else appendTo6 ip.

End net.

(** ** Capacity negotiation *)

(** [csi.CapacityRange]; a nil pointer is [None], and the generated getters
    return 0 on nil. *)
Record CapacityRange : Type := {
  RequiredBytes : Z;
  LimitBytes : Z
}.

Definition GetRequiredBytes (capRange : option CapacityRange) : Z :=
  match capRange with Some c => RequiredBytes c | None => 0 end.

Definition GetLimitBytes (capRange : option CapacityRange) : Z :=
  match capRange with Some c => LimitBytes c | None => 0 end.

Definition MaxOfInt (a b : Z) : Z := if b <? a then a else b.

(** The three [fmt.Errorf] values of [ExtractStorage], each carrying the
    byte counts its message prints. *)
Inductive StorageError : Type :=
| LimitLessThanRequired (limitBytes requiredBytes : Z)
| RequiredExceedsMaximum (requiredBytes maximum : Z)
| LimitExceedsMaximum (limitBytes maximum : Z).

Definition ExtractStorage (capRange : option CapacityRange) : result Z StorageError :=
  match capRange with
  | None => Ok defaultVolumeSizeInBytes
  | Some _ =>
    let requiredBytes := GetRequiredBytes capRange in
    let requiredSet := 0 <? requiredBytes in
    let limitBytes := GetLimitBytes capRange in
    let limitSet := 0 <? limitBytes in
    if negb requiredSet && negb limitSet then Ok defaultVolumeSizeInBytes
    else if requiredSet && limitSet && (limitBytes <? requiredBytes) then
      Err (LimitLessThanRequired limitBytes requiredBytes)
    else if requiredSet && negb limitSet then
      Ok (MaxOfInt requiredBytes MinimumVolumeSizeInBytes)
    else if limitSet then
      Ok (MaxOfInt limitBytes MinimumVolumeSizeInBytes)
    else if requiredSet && (MaximumVolumeSizeInBytes <? requiredBytes) then
      Err (RequiredExceedsMaximum requiredBytes MaximumVolumeSizeInBytes)
    else if negb requiredSet && limitSet && (MaximumVolumeSizeInBytes <? limitBytes) then
      Err (LimitExceedsMaximum limitBytes MaximumVolumeSizeInBytes)
    else if requiredSet && limitSet then
      Ok (MaxOfInt requiredBytes limitBytes)
    else if requiredSet then Ok requiredBytes
    else if limitSet then Ok limitBytes
    else Ok defaultVolumeSizeInBytes
  end.

(** ** Volume locks *)

(** [VolumeLocks]: the set of volume ids with an operation in flight.  Every
    method holds [mux] for its whole body, so each call is one atomic step
    on the set; the step is what is modelled. *)
Record VolumeLocks : Type := {
  locks : gset string
}.

Definition NewVolumeLocks : VolumeLocks := {| locks := ∅ |}.

Definition Has (vl : VolumeLocks) (volumeID : string) : bool :=
  bool_decide (volumeID ∈ locks vl).

Definition TryAcquire (vl : VolumeLocks) (volumeID : string) : bool * VolumeLocks :=
  if Has vl volumeID then (false, vl)
  else (true, {| locks := {[volumeID]} ∪ locks vl |}).

Definition Release (vl : VolumeLocks) (volumeID : string) : VolumeLocks :=
  {| locks := locks vl ∖ {[volumeID]} |}.

(** ** FSS volume handles *)

Definition alnum (c : ascii) : bool :=
  regexp.between "a" "z" c || regexp.between "A" "Z" c || regexp.between "0" "9" c.

Definition alpha (c : ascii) : bool :=
  regexp.between "a" "z" c || regexp.between "A" "Z" c.

(** [^([a-zA-Z0-9]+(-[a-zA-Z0-9]+)*\.)+[a-zA-Z]{2,}$] *)
Definition dnsNamePattern : regexp.re :=
  regexp.Cat
    (regexp.Plus
       (regexp.Cat
          (regexp.Cat (regexp.Plus (regexp.Class alnum))
                      (regexp.Star (regexp.Cat (regexp.Char "-")
                                               (regexp.Plus (regexp.Class alnum)))))
          (regexp.Char ".")))
    (regexp.AtLeast 2 (regexp.Class alpha)).

Definition ValidateDNSName (name : string) : bool :=
  regexp.MatchAnchored dnsNamePattern name.

Record FSSVolumeHandler : Type := {
  FilesystemOcid : string;
  MountTargetIPAddress : string;
  FsExportPath : string
}.

Definition ValidateFssId (id : string) : FSSVolumeHandler :=
  let volumeHandler :=
    {| FilesystemOcid := ""; MountTargetIPAddress := ""; FsExportPath := "" |} in
  if String.eqb id "" then volumeHandler
  else
    let firstColon := strings.Index id ":" in
    let lastColon := strings.LastIndex id ":" in
    if (0 <? firstColon) && (lastColon <? strings.len id - 1)
       && negb (firstColon =? lastColon) then
      if negb (net.isNil (net.ParseIP
                            (strings.Trim (strings.slice id (firstColon + 1) lastColon) "[]")))
         || ValidateDNSName (strings.slice id (firstColon + 1) lastColon) then
        {| FilesystemOcid := strings.slice id 0 firstColon;
           MountTargetIPAddress := strings.slice id (firstColon + 1) lastColon;
           FsExportPath := strings.slice_from id (lastColon + 1) |}
      else volumeHandler
    else volumeHandler.

(** ** Address families *)

Definition FormatValidIp (ipAddress : string) : string :=
  if negb (net.isNil (net.To4 (net.ParseIP ipAddress))) then ipAddress
  else if negb (net.isNil (net.To16 (net.ParseIP ipAddress))) then
    "[" ++ strings.Trim ipAddress "[]" ++ "]"
  else ipAddress.

Definition FormatValidIpStackInK8SConvention (ipStack : string) : string :=
  if strings.EqualFold ipStack Ipv4Stack then Ipv4Stack
  else if strings.EqualFold ipStack Ipv6Stack then Ipv6Stack
  else ipStack.

Definition IsIpv4 (ipAddress : string) : bool :=
  negb (net.isNil (net.To4 (net.ParseIP ipAddress))).

Definition IsIpv6 (ipAddress : string) : bool :=
  net.isNil (net.To4 (net.ParseIP ipAddress))
  && negb (net.isNil (net.To16 (net.ParseIP (strings.Trim ipAddress "[]")))).

(** The error of [ConvertIscsiIpFromIpv4ToIpv6] carries the rejected text. *)
Inductive IscsiIpError : Type :=
| InvalidIscsiIp (ipv4IscsiIp : string).

Definition ConvertIscsiIpFromIpv4ToIpv6 (ipv4IscsiIp : string) : result string IscsiIpError :=
  let ipv4IscsiIP := net.To4 (net.ParseIP ipv4IscsiIp) in
  if net.isNil ipv4IscsiIP then Err (InvalidIscsiIp ipv4IscsiIp)
  else
    let ipv6IscsiIp := net.ParseIP IscsiIpv6Prefix in
    let ipv6IscsiIpBytes := net.To16 ipv6IscsiIp in
    let ipv6IscsiIpBytes := net.copyAt ipv6IscsiIpBytes 12 (net.To4 ipv4IscsiIP) in
    Ok (net.String_ ipv6IscsiIpBytes).

Record NodeIpFamily : Type := {
  PreferredNodeIpFamily : string;
  Ipv4Enabled : bool;
  Ipv6Enabled : bool
}.

(** What [GetNodeIpFamily] reads of a Kubernetes node: its labels, a map
    that may be nil. *)
Record Node : Type := {
  Labels : option (gmap string string)
}.

Inductive NodeError : Type :=
| FailedToGetNode.

(** [k] stands for the node lookup of the Kubernetes client, [None] being
    its error. *)
Definition GetNodeIpFamily (k : string → option Node) (nodeID : string)
  : result NodeIpFamily NodeError :=
  match k nodeID with
  | None => Err FailedToGetNode
  | Some n =>
    let nodeIpFamily :=
      {| PreferredNodeIpFamily := ""; Ipv4Enabled := false; Ipv6Enabled := false |} in
    let nodeIpFamily :=
      match Labels n with
      | None => nodeIpFamily
      | Some labels =>
        let nodeIpFamily :=
          match labels !! LabelIpFamilyPreferred with
          | Some preferredIpFamily =>
            {| PreferredNodeIpFamily := FormatValidIpStackInK8SConvention preferredIpFamily;
               Ipv4Enabled := Ipv4Enabled nodeIpFamily;
               Ipv6Enabled := Ipv6Enabled nodeIpFamily |}
          | None => nodeIpFamily
          end in
        let nodeIpFamily :=
          match labels !! LabelIpFamilyIpv4 with
          | Some ipv4Enabled =>
            if strings.EqualFold ipv4Enabled "true" then
              {| PreferredNodeIpFamily := PreferredNodeIpFamily nodeIpFamily;
                 Ipv4Enabled := true;
                 Ipv6Enabled := Ipv6Enabled nodeIpFamily |}
            else nodeIpFamily
          | None => nodeIpFamily
          end in
        match labels !! LabelIpFamilyIpv6 with
        | Some ipv6Enabled =>
          if strings.EqualFold ipv6Enabled "true" then
            {| PreferredNodeIpFamily := PreferredNodeIpFamily nodeIpFamily;
               Ipv4Enabled := Ipv4Enabled nodeIpFamily;
               Ipv6Enabled := true |}
          else nodeIpFamily
        | None => nodeIpFamily
        end
      end in
    if negb (Ipv4Enabled nodeIpFamily) && negb (Ipv6Enabled nodeIpFamily) then
      Ok {| PreferredNodeIpFamily := Ipv4Stack;
            Ipv4Enabled := true;
            Ipv6Enabled := Ipv6Enabled nodeIpFamily |}
    else Ok nodeIpFamily
  end.

(** ** Notions used to state and prove the properties *)

(** The all-empty handle [&FSSVolumeHandler{"", "", ""}]. *)
Definition emptyHandle : FSSVolumeHandler :=
  {| FilesystemOcid := ""; MountTargetIPAddress := ""; FsExportPath := "" |}.

(** The test [ValidateFssId] applies to the text between the first and the
    last colon. *)
Definition validMountTarget (m : string) : bool :=
  negb (net.isNil (net.ParseIP (strings.Trim m "[]"))) || ValidateDNSName m.

(** The condition under which [ValidateFssId] fills the handle. *)
Definition accepted (id : string) : bool :=
  let firstColon := strings.Index id ":" in
  let lastColon := strings.LastIndex id ":" in
  (0 <? firstColon) && (lastColon <? strings.len id - 1)
  && negb (firstColon =? lastColon)
  && validMountTarget (strings.slice id (firstColon + 1) lastColon).

(** Modelled from the spec: the serialisation of a handle, which [utils.go]
    does not contain: the three fields joined by colons, the mount target
    address passed through [FormatValidIp] first. *)
Definition serialize (h : FSSVolumeHandler) : string :=
  FilesystemOcid h ++ ":" ++ FormatValidIp (MountTargetIPAddress h) ++ ":" ++ FsExportPath h.

(** The node's reading of a boolean label and of the preferred-family label. *)
Definition labelIsTrue (labels : option (gmap string string)) (key : string) : bool :=
  match labels with
  | Some m => match m !! key with Some v => strings.EqualFold v "true" | None => false end
  | None => false
  end.

Definition preferredFromLabel (labels : option (gmap string string)) : string :=
  match labels with
  | Some m =>
    match m !! LabelIpFamilyPreferred with
    | Some p => FormatValidIpStackInK8SConvention p
    | None => ""
    end
  | None => ""
  end.

(** The bytes a regular expression can read, and the expressions that match
    nothing by their shape. *)
Fixpoint alphabet (r : regexp.re) (c : ascii) : bool :=
  match r with
  | regexp.Void | regexp.Eps => false
  | regexp.Class p => p c
  | regexp.Cat r1 r2 | regexp.Alt r1 r2 => alphabet r1 c || alphabet r2 c
  | regexp.Star r1 => alphabet r1 c
  end.

Fixpoint dead (r : regexp.re) : bool :=
  match r with
  | regexp.Void => true
  | regexp.Eps | regexp.Class _ | regexp.Star _ => false
  | regexp.Cat r1 r2 => dead r1 || dead r2
  | regexp.Alt r1 r2 => dead r1 && dead r2
  end.

(** The tail [IP.String] prints after ["fd00:c1::"] for an address that
    starts with the iSCSI prefix and ends in the groups [g6] and [g7]. *)
Definition iscsiTail (g6 g7 : Z) : string :=
  if g6 =? 0 then (if g7 =? 0 then "" else net.appendHex g7)
  else net.appendHex g6 ++ ":" ++ net.appendHex g7.

Definition isByte (b : Z) : Prop := 0 <= b < 256.

(** Reading back a printed group: [scanHex] recovers the value from what
    [appendHex] printed, reading at least one digit and all of them. *)
Definition hexReadsBack (x : Z) : bool :=
  match net.scanHex 0 0 (net.appendHex x) with
  | Some (n, v, EmptyString) => (v =? x) && (0 <? n)
  | _ => false
  end.

(** A 16-bit group made of two bytes gives the two bytes back. *)
Definition groupSplits (a b : Z) : bool :=
  let g := Z.lor (Z.shiftl a 8) b in
  (Z.shiftr g 8 =? a) && (Z.land g 255 =? b) && (0 <=? g) && (g <? 65536).

(** The integers [start, start + 1, ...], [n] of them, and [0 .. n - 1]. *)
Fixpoint countFrom (n : nat) (start : Z) : list Z :=
  match n with
  | O => []
  | S n' => start :: countFrom n' (start + 1)
  end.

Definition upTo (n : Z) : list Z := countFrom (Z.to_nat n) 0.

(** The first twelve bytes of [net.ParseIP IscsiIpv6Prefix]. *)
Definition iscsiPrefixBytes : list Z := [253; 0; 0; 193; 0; 0; 0; 0; 0; 0; 0; 0].

(** A text that does not start with a byte of the cutset. *)
Definition untrimmableBy (cutset s : string) : Prop :=
  match s with
  | String a _ => strings.inCutset cutset a = false
  | EmptyString => True
  end.

(** ** Further functions of [utils.go] *)

(** *** Sizes *)

(** [int64] arithmetic wraps around. *)
Definition wrap64 (z : Z) : Z := (z + 2 ^ 63) mod 2 ^ 64 - 2 ^ 63.

(** [RoundUpSize]: [(volumeSizeBytes + allocationUnitBytes - 1) /
    allocationUnitBytes] on [int64]; Go's division truncates towards zero
    and panics on a zero divisor, which is [None] here. *)
Definition RoundUpSize (volumeSizeBytes allocationUnitBytes : Z) : option Z :=
  if allocationUnitBytes =? 0 then None
  else
    Some (wrap64 (Z.quot (wrap64 (wrap64 (volumeSizeBytes + allocationUnitBytes) - 1))
                         allocationUnitBytes)).

Definition RoundUpMinSize : option Z := RoundUpSize MinimumVolumeSizeInBytes (1 * client.GiB).

(** *** Runs of lock operations *)

Inductive LockOp : Type :=
| OpTryAcquire (volumeID : string)
| OpRelease (volumeID : string).

Definition opVolume (op : LockOp) : string :=
  match op with OpTryAcquire v | OpRelease v => v end.

Definition stepLock (vl : VolumeLocks) (op : LockOp) : VolumeLocks :=
  match op with
  | OpTryAcquire v => snd (TryAcquire vl v)
  | OpRelease v => Release vl v
  end.

(** The lock set after the calls of [ops], one after the other. *)
Definition runLocks (vl : VolumeLocks) (ops : list LockOp) : VolumeLocks :=
  fold_left stepLock ops vl.

(** *** More of Go's strings package *)

Module strings2.

(** [strings.Split(s, sep)] for a one-byte [sep]: the texts between the
    separators, at least one of them. *)
Fixpoint Split (s : string) (sep : ascii) : list string :=
  match s with
  | EmptyString => [EmptyString]
  | String c rest =>
    if Ascii.eqb c sep then EmptyString :: Split rest sep
    else
      match Split rest sep with
      | h :: t => String c h :: t
      | [] => [String c EmptyString]
      end
  end.

(** [strings.HasPrefix] and [strings.Contains]. *)
Fixpoint HasPrefix (s prefix : string) : bool :=
  match prefix, s with
  | EmptyString, _ => true
  | String p prefix', String c s' => Ascii.eqb c p && HasPrefix s' prefix'
  | String _ _, EmptyString => false
  end.

Fixpoint Contains (s substr : string) : bool :=
  HasPrefix s substr
  || match s with
     | EmptyString => false
     | String _ rest => Contains rest substr
     end.

End strings2.

(** *** Go's strconv package *)

Module strconv.

Inductive NumError : Type :=
| ErrSyntax
| ErrRange.

Definition maxUint64 : Z := 2 ^ 64 - 1.

(** The loop of [strconv.ParseUint(s, 10, 64)] over the bytes of [s]. *)
Fixpoint parseUintLoop (n : Z) (s : string) : result Z NumError :=
  match s with
  | EmptyString => Ok n
  | String c rest =>
    let b := net.byteOf c in
    let d :=
      if (48 <=? b) && (b <=? 57) then Some (b - 48)
      else if (97 <=? Z.lor b 32) && (Z.lor b 32 <=? 122) then Some (Z.lor b 32 - 97 + 10)
      else None in
    match d with
    | None => Err ErrSyntax
    | Some d =>
      if 10 <=? d then Err ErrSyntax
      else if maxUint64 / 10 + 1 <=? n then Err ErrRange
      else
        let n1 := n * 10 + d in
        if maxUint64 <? n1 then Err ErrRange else parseUintLoop n1 rest
    end
  end.

Definition ParseUint (s : string) : result Z NumError :=
  match s with
  | EmptyString => Err ErrSyntax
  | _ => parseUintLoop 0 s
  end.

(** [strconv.ParseInt(s, 10, 64)]. *)
Definition ParseInt (s : string) : result Z NumError :=
  match s with
  | EmptyString => Err ErrSyntax
  | String c rest =>
    let '(neg, body) :=
      if Ascii.eqb c "+" then (false, rest)
      else if Ascii.eqb c "-" then (true, rest)
      else (false, s) in
    match ParseUint body with
    | Err ErrSyntax => Err ErrSyntax
    | Err ErrRange => Err ErrRange
    | Ok un =>
      let cutoff := 2 ^ 63 in
      if negb neg && (cutoff <=? un) then Err ErrRange
      else if neg && (cutoff <? un) then Err ErrRange
      else Ok (if neg then wrap64 (- wrap64 un) else wrap64 un)
    end
  end.

(** The fast path of [strconv.Atoi]: sign, then digits. *)
Fixpoint atoiDigits (n : Z) (s : string) : option Z :=
  match s with
  | EmptyString => Some n
  | String ch rest =>
    let ch := (net.byteOf ch - 48) mod 256 in
    if 9 <? ch then None else atoiDigits (n * 10 + ch) rest
  end.

(** [strconv.Atoi] where [int] has 64 bits. *)
Definition Atoi (s : string) : result Z NumError :=
  let sLen := strings.len s in
  if (0 <? sLen) && (sLen <? 19) then
    match s with
    | EmptyString => Err ErrSyntax
    | String c rest =>
      let signed := Ascii.eqb c "-" || Ascii.eqb c "+" in
      let body := if signed then rest else s in
      if signed && (strings.len body <? 1) then Err ErrSyntax
      else
        match atoiDigits 0 body with
        | None => Err ErrSyntax
        | Some n => Ok (if Ascii.eqb c "-" then - n else n)
        end
    end
  else ParseInt s.

End strconv.

(** *** Attributes *)

Definition LowCostPerformanceOption : Z := 0.
Definition BalancedPerformanceOption : Z := 10.
Definition HigherPerformanceOption : Z := 20.
Definition MaxUltraHighPerformanceOption : Z := 120.

(** The two [InvalidArgument] statuses of
    [ExtractBlockVolumePerformanceLevel]. *)
Inductive PerformanceError : Type :=
| UnableToParsePerformanceLevel (attribute : string)
| InvalidPerformanceOption (attribute : string).

Definition ExtractBlockVolumePerformanceLevel (attribute : string)
  : result Z PerformanceError :=
  match strconv.ParseInt attribute with
  | Err _ => Err (UnableToParsePerformanceLevel attribute)
  | Ok vpusPerGB =>
    if (vpusPerGB <? LowCostPerformanceOption) || (MaxUltraHighPerformanceOption <? vpusPerGB)
    then Err (InvalidPerformanceOption attribute)
    else Ok vpusPerGB
  end.

(** [disk.Disk] *)
Record Disk : Type := {
  IQN : string;
  IscsiIp : string;
  Port : Z
}.

Inductive ISCSIError : Type :=
| UnableToGetIQN
| UnableToGetIscsiIp
| UnableToGetPort
| InvalidPortNumber (port : string) (err : strconv.NumError).

(** [ExtractISCSIInformation].  The attribute names [disk.ISCSIIQN],
    [disk.ISCSIIP] and [disk.ISCSIPORT] are constants of [pkg/util/disk];
    they are arguments here. *)
Definition ExtractISCSIInformation (ISCSIIQN ISCSIIP ISCSIPORT : string)
           (attributes : gmap string string) : result Disk ISCSIError :=
  match attributes !! ISCSIIQN with
  | None => Err UnableToGetIQN
  | Some iqn =>
    match attributes !! ISCSIIP with
    | None => Err UnableToGetIscsiIp
    | Some iSCSIIp =>
      match attributes !! ISCSIPORT with
      | None => Err UnableToGetPort
      | Some port =>
        match strconv.Atoi port with
        | Err err => Err (InvalidPortNumber port err)
        | Ok nPort => Ok {| IQN := iqn; IscsiIp := iSCSIIp; Port := nPort |}
        end
      end
    end
  end.


(** *** Availability domains *)

(** [GetAvailableDomainInNodeLabel]: ["zkJl:US-ASHBURN-AD-1"] becomes
    ["US-ASHBURN-AD-1"]. *)
Definition GetAvailableDomainInNodeLabel (fullAD : string) : string :=
  let adElements := strings2.Split fullAD ":" in
  if (0 <? length adElements)%nat then nth (length adElements - 1) adElements ""
  else "".

(** *** Waiting for a path *)




(** *** Subnets and nodes *)

(** What the classifiers read of [core.Subnet]: two optional texts and a
    list. *)
Record Subnet : Type := {
  CidrBlock : option string;
  Ipv6CidrBlock : option string;
  Ipv6CidrBlocks : list string
}.

Definition IsDualStackSubnet (subnet : Subnet) : bool :=
  match CidrBlock subnet with
  | Some cidr => (0 <? strings.len cidr) && negb (strings2.Contains cidr "null")
  | None => false
  end
  && (match Ipv6CidrBlock subnet with
      | Some cidr6 => 0 <? strings.len cidr6
      | None => false
      end
      || (0 <? length (Ipv6CidrBlocks subnet))%nat).

Definition IsIpv4SingleStackSubnet (subnet : Subnet) : bool :=
  negb (IsDualStackSubnet subnet)
  && match CidrBlock subnet with
     | Some cidr => (0 <? strings.len cidr) && negb (strings2.Contains cidr "null")
     | None => false
     end.

Definition IsIpv6SingleStackSubnet (subnet : Subnet) : bool :=
  negb (IsDualStackSubnet subnet) && negb (IsIpv4SingleStackSubnet subnet).

Definition IsValidIpFamilyPresentInClusterIpFamily (clusterIpFamily : string) : bool :=
  (0 <? strings.len clusterIpFamily)
  && (strings2.Contains clusterIpFamily Ipv4Stack || strings2.Contains clusterIpFamily Ipv6Stack).

(** [IsIpv6SingleStackNode]; a nil pointer is [None]. *)
Definition IsIpv6SingleStackNode (nodeIpFamily : option NodeIpFamily) : bool :=
  match nodeIpFamily with
  | None => false
  | Some f => Bool.eqb (Ipv6Enabled f) true && Bool.eqb (Ipv4Enabled f) false
  end.

(** *** Notions used to state the further properties *)

(** The value of a text of decimal digits read after [n]; [None] when a byte
    is not a digit. *)
Fixpoint decimal (n : Z) (s : string) : option Z :=
  match s with
  | EmptyString => Some n
  | String c rest =>
    if net.isDigit c then decimal (n * 10 + (net.byteOf c - 48)) rest else None
  end.

(** The value of a decimal integer: an optional sign, then at least one
    digit. *)
Definition signedDecimal (s : string) : option Z :=
  match s with
  | EmptyString => None
  | String c rest =>
    if Ascii.eqb c "+" then (if net.isEmpty rest then None else decimal 0 rest)
    else if Ascii.eqb c "-" then
      (if net.isEmpty rest then None else option_map Z.opp (decimal 0 rest))
    else decimal 0 s
  end.

(** The last element, as [a[len(a)-1]] reads it. *)
Definition lastElement (l : list string) : string := nth (length l - 1) l "".

(** A subnet has a usable primary CIDR when the text is there, not empty
    and without ["null"] in it; it has an IPv6 CIDR when the single one is
    there and not empty or the list is not empty. *)
Definition usablePrimaryCidr (subnet : Subnet) : bool :=
  match CidrBlock subnet with
  | Some cidr => (0 <? strings.len cidr) && negb (strings2.Contains cidr "null")
  | None => false
  end.

Definition hasIpv6Cidr (subnet : Subnet) : bool :=
  match Ipv6CidrBlock subnet with
  | Some cidr6 => 0 <? strings.len cidr6
  | None => false
  end
  || (0 <? length (Ipv6CidrBlocks subnet))%nat.

(** What [parseIPv6] relies on in a printed group: it starts with a digit
    (so neither with a colon nor with a dot) and holds no percent sign. *)
Definition hexShape (x : Z) : bool :=
  match net.appendHex x with
  | String c _ =>
    negb (Ascii.eqb c ":") && negb (Ascii.eqb c ".")
    && (strings.Index (net.appendHex x) "%" =? -1)
  | EmptyString => false
  end.

(** The bytes [parseIPv6] holds after it has read ["fd00:c1::"]. *)
Definition afterPrefix : list Z := [253; 0; 0; 193; 0; 0; 0; 0; 0; 0; 0; 0; 0; 0; 0; 0].

(** The two bytes that [parseIPv6] stores for a group made of two bytes. *)
Definition groupBytes (a b : Z) : bool :=
  let g := Z.lor (Z.shiftl a 8) b in
  (Z.shiftr g 8 mod 256 =? a) && (g mod 256 =? b).

(** The bytes an IP literal is made of: hex digits, colons and dots. *)
Definition ipChar (c : ascii) : bool :=
  match net.hexVal c with
  | Some _ => true
  | None => Ascii.eqb c ":" || Ascii.eqb c "."
  end.

Definition allIpChars (s : string) : bool := forallb ipChar (list_ascii_of_string s).

(** * Properties *)

(** ** Capacity negotiation *)

Lemma MaxOfInt_max a b : MaxOfInt a b = Z.max a b.
Proof. unfold MaxOfInt. destruct (Z.ltb_spec b a); lia. Qed.

Ltac storage_cases :=
  unfold ExtractStorage, GetRequiredBytes, GetLimitBytes; cbn [RequiredBytes LimitBytes];
  repeat match goal with
         | |- context [?a <? ?b] => destruct (Z.ltb_spec a b); cbn [negb andb orb]
         end;
  try lia; try reflexivity; try congruence.

(** C1: with a positive limit that is not below a positive requirement, or
    with a positive limit alone, the agreed size is the larger of the limit
    and the 50 GiB minimum, whatever the limit is compared with 32 TiB. *)
Theorem ExtractStorage_limit_set (required limit : Z) :
  (0 < required ∧ 0 < limit ∧ required <= limit) ∨ (required <= 0 ∧ 0 < limit) →
  ExtractStorage (Some {| RequiredBytes := required; LimitBytes := limit |})
  = Ok (Z.max limit (50 * 2 ^ 30))
  ∧ MinimumVolumeSizeInBytes = 50 * 2 ^ 30.
Proof.
  intros H. split; [|reflexivity].
  rewrite <- MaxOfInt_max. change (50 * 2 ^ 30) with MinimumVolumeSizeInBytes.
  storage_cases.
Qed.

Lemma ExtractStorage_limit_set_witness :
  ExtractStorage (Some {| RequiredBytes := 10 * 2 ^ 40; LimitBytes := 40 * 2 ^ 40 |})
  = Ok (Z.max (40 * 2 ^ 40) (50 * 2 ^ 30))
  ∧ MinimumVolumeSizeInBytes = 50 * 2 ^ 30.
Proof. apply (ExtractStorage_limit_set (10 * 2 ^ 40) (40 * 2 ^ 40)). left. lia. Defined.

(** C2, what the code does: a requirement of 33 TiB with no limit, above
    the 32 TiB maximum, is accepted and returned as the size; the
    required-exceeds-maximum error that the function goes on to build is
    returned for no capacity range at all. *)
Theorem ExtractStorage_required_above_maximum :
  MaximumVolumeSizeInBytes < 33 * 2 ^ 40
  ∧ ExtractStorage (Some {| RequiredBytes := 33 * 2 ^ 40; LimitBytes := 0 |})
    = Ok (33 * 2 ^ 40)
  ∧ ∀ capRange required maximum,
      ExtractStorage capRange ≠ Err (RequiredExceedsMaximum required maximum).
Proof.
  split; [reflexivity|]. split; [reflexivity|].
  intros [[required limit]|] r m; [|discriminate].
  unfold ExtractStorage, GetRequiredBytes, GetLimitBytes; cbn [RequiredBytes LimitBytes].
  destruct (0 <? required), (0 <? limit); cbn [negb andb]; try discriminate.
  destruct (limit <? required); discriminate.
Qed.

(** C3: a positive limit below a positive requirement is refused with the
    limit-less-than-required error, whatever the two sizes are. *)
Theorem ExtractStorage_limit_less_than_required (required limit : Z) :
  0 < required → 0 < limit → limit < required →
  ExtractStorage (Some {| RequiredBytes := required; LimitBytes := limit |})
  = Err (LimitLessThanRequired limit required).
Proof. intros. storage_cases. Qed.

Lemma ExtractStorage_limit_less_than_required_witness :
  ExtractStorage (Some {| RequiredBytes := 100 * 2 ^ 40; LimitBytes := 50 * 2 ^ 40 |})
  = Err (LimitLessThanRequired (50 * 2 ^ 40) (100 * 2 ^ 40)).
Proof.
  apply (ExtractStorage_limit_less_than_required (100 * 2 ^ 40) (50 * 2 ^ 40)); lia.
Defined.

(** C10: a field that is zero or negative counts as unset.  Two such fields
    give the 50 GiB default; and as soon as one field is not positive the
    limit-less-than-required error cannot occur, the call succeeds. *)
Theorem ExtractStorage_non_positive_unset (required limit : Z) :
  (required <= 0 → limit <= 0 →
   ExtractStorage (Some {| RequiredBytes := required; LimitBytes := limit |})
   = Ok (50 * 2 ^ 30))
  ∧ (required <= 0 ∨ limit <= 0 →
     ∃ size, ExtractStorage (Some {| RequiredBytes := required; LimitBytes := limit |})
             = Ok size
             ∧ size = (if 0 <? required then Z.max required (50 * 2 ^ 30)
                       else if 0 <? limit then Z.max limit (50 * 2 ^ 30)
                       else 50 * 2 ^ 30)).
Proof.
  change (50 * 2 ^ 30) with MinimumVolumeSizeInBytes. split.
  - intros. storage_cases.
  - intros H. eexists. split; [|reflexivity].
    rewrite <- !MaxOfInt_max. storage_cases.
Qed.

Lemma ExtractStorage_non_positive_unset_witness :
  ExtractStorage (Some {| RequiredBytes := -7; LimitBytes := -1 |}) = Ok (50 * 2 ^ 30)
  ∧ ∃ size, ExtractStorage (Some {| RequiredBytes := 60 * 2 ^ 30; LimitBytes := -5 |})
            = Ok size ∧ size = 60 * 2 ^ 30.
Proof.
  split.
  - apply (ExtractStorage_non_positive_unset (-7) (-1)); lia.
  - apply (proj2 (ExtractStorage_non_positive_unset (60 * 2 ^ 30) (-5))). right. lia.
Defined.

(** The sizes the specification lists as examples. *)
Example ExtractStorage_unset :
  ExtractStorage (Some {| RequiredBytes := 0; LimitBytes := 0 |}) = Ok (50 * 2 ^ 30)
  ∧ ExtractStorage None = Ok (50 * 2 ^ 30).
Proof. split; reflexivity. Qed.

Example ExtractStorage_required_only :
  ExtractStorage (Some {| RequiredBytes := 10 * 2 ^ 40; LimitBytes := 0 |})
  = Ok (10 * 2 ^ 40).
Proof. reflexivity. Qed.

(** ** Volume locks *)

Lemma Has_true vl id : Has vl id = true ↔ id ∈ locks vl.
Proof. unfold Has. apply bool_decide_eq_true. Qed.

Lemma Has_false vl id : Has vl id = false ↔ id ∉ locks vl.
Proof. unfold Has. apply bool_decide_eq_false. Qed.

Lemma TryAcquire_free vl id :
  id ∉ locks vl → TryAcquire vl id = (true, {| locks := {[id]} ∪ locks vl |}).
Proof. intros H. unfold TryAcquire. apply Has_false in H. now rewrite H. Qed.

Lemma TryAcquire_held vl id : id ∈ locks vl → TryAcquire vl id = (false, vl).
Proof. intros H. unfold TryAcquire. apply Has_true in H. now rewrite H. Qed.

Lemma Release_not_held vl id : id ∉ locks vl → Release vl id = vl.
Proof.
  intros H. destruct vl as [s]. unfold Release. cbn in *. f_equal.
  now apply difference_disjoint_L, disjoint_singleton_r.
Qed.

(** C4: [TryAcquire] succeeds exactly on an id that is not held, and then
    adds it and nothing else; it fails on a held id and leaves the set as it
    was.  Acquiring a free id twice gives true then false, and acquiring
    after [Release] gives true.  [Release] removes the id, does nothing when
    the id is not held, and keeps every other id's membership. *)
Theorem VolumeLocks_exclusion (vl : VolumeLocks) (id : string) :
  (fst (TryAcquire vl id) = true ↔ id ∉ locks vl)
  ∧ (id ∉ locks vl → TryAcquire vl id = (true, {| locks := {[id]} ∪ locks vl |}))
  ∧ (id ∈ locks vl → TryAcquire vl id = (false, vl))
  ∧ (∀ id', id' ≠ id → (id' ∈ locks (snd (TryAcquire vl id)) ↔ id' ∈ locks vl))
  ∧ (id ∉ locks vl →
     fst (TryAcquire vl id) = true
     ∧ fst (TryAcquire (snd (TryAcquire vl id)) id) = false
     ∧ fst (TryAcquire (Release (snd (TryAcquire (snd (TryAcquire vl id)) id)) id) id) = true)
  ∧ fst (TryAcquire (Release vl id) id) = true
  ∧ locks (Release vl id) = locks vl ∖ {[id]}
  ∧ (id ∉ locks (Release vl id))
  ∧ (id ∉ locks vl → Release vl id = vl)
  ∧ Release (Release vl id) id = Release vl id
  ∧ (∀ id', id' ≠ id → (id' ∈ locks (Release vl id) ↔ id' ∈ locks vl)).
Proof.
  assert (Hrel : ∀ v, id ∉ locks (Release v id)).
  { intros v. cbn. rewrite elem_of_difference, elem_of_singleton. tauto. }
  assert (Hadd : ∀ id', id' ≠ id → (id' ∈ {[id]} ∪ locks vl ↔ id' ∈ locks vl)).
  { intros id' Hne. rewrite elem_of_union, elem_of_singleton. tauto. }
  assert (Hdel : ∀ id', id' ≠ id → (id' ∈ locks vl ∖ {[id]} ↔ id' ∈ locks vl)).
  { intros id' Hne. rewrite elem_of_difference, elem_of_singleton. tauto. }
  repeat split.
  - intros H Hin. rewrite (TryAcquire_held _ _ Hin) in H. discriminate.
  - intros H. now rewrite (TryAcquire_free _ _ H).
  - apply TryAcquire_free.
  - apply TryAcquire_held.
  - destruct (decide (id ∈ locks vl)) as [Hin|Hout].
    + now rewrite (TryAcquire_held _ _ Hin).
    + rewrite (TryAcquire_free _ _ Hout). cbn. now apply Hadd.
  - destruct (decide (id ∈ locks vl)) as [Hin|Hout].
    + now rewrite (TryAcquire_held _ _ Hin).
    + rewrite (TryAcquire_free _ _ Hout). cbn. now apply Hadd.
  - now rewrite (TryAcquire_free _ _ H).
  - rewrite (TryAcquire_free _ _ H). cbn [snd].
    rewrite TryAcquire_held; [reflexivity|].
    cbn. apply elem_of_union_l. now apply elem_of_singleton.
  - now rewrite (TryAcquire_free _ _ (Hrel _)).
  - now rewrite (TryAcquire_free _ _ (Hrel _)).
  - apply Hrel.
  - apply Release_not_held.
  - apply Release_not_held, Hrel.
  - cbn. now apply Hdel.
  - cbn. now apply Hdel.
Qed.

Lemma VolumeLocks_exclusion_witness :
  fst (TryAcquire NewVolumeLocks "ocid1.volume.oc1..aaaa") = true
  ∧ fst (TryAcquire (snd (TryAcquire NewVolumeLocks "ocid1.volume.oc1..aaaa"))
                    "ocid1.volume.oc1..aaaa") = false
  ∧ fst (TryAcquire
           (Release (snd (TryAcquire (snd (TryAcquire NewVolumeLocks "ocid1.volume.oc1..aaaa"))
                                     "ocid1.volume.oc1..aaaa"))
                    "ocid1.volume.oc1..aaaa")
           "ocid1.volume.oc1..aaaa") = true.
Proof.
  apply (VolumeLocks_exclusion NewVolumeLocks "ocid1.volume.oc1..aaaa").
  cbn. apply not_elem_of_empty.
Defined.

(** ** Go strings *)

Section strings_facts.
Import strings.

Lemma len_String c s : len (String c s) = len s + 1.
Proof. unfold len. cbn [String.length]. lia. Qed.

Lemma len_nonneg s : 0 <= len s.
Proof. unfold len. lia. Qed.

Lemma len_app s t : len (s ++ t) = len s + len t.
Proof.
  induction s as [|c s IH]; cbn [String.append].
  - unfold len. cbn [String.length]. lia.
  - rewrite !len_String, IH. lia.
Qed.

Lemma len_zero s : len s = 0 → s = "".
Proof.
  intros H. destruct s; [reflexivity|].
  rewrite len_String in H. pose proof (len_nonneg s). lia.
Qed.

Lemma append_nil_r s : s ++ "" = s.
Proof. induction s; cbn; congruence. Qed.

Lemma append_assoc s t u : (s ++ t) ++ u = s ++ t ++ u.
Proof. induction s; cbn; congruence. Qed.

Lemma append_String s c t : s ++ String c t = (s ++ String c "") ++ t.
Proof. now rewrite append_assoc. Qed.

Lemma Index_range s c : -1 <= Index s c < len s.
Proof.
  induction s as [|a s IH]; cbn [Index].
  - unfold len. cbn [String.length]. lia.
  - rewrite len_String. destruct (Ascii.eqb a c); [lia|].
    destruct (Z.ltb_spec (Index s c) 0); lia.
Qed.

Lemma LastIndex_range s c : -1 <= LastIndex s c < len s.
Proof.
  induction s as [|a s IH]; cbn [LastIndex].
  - unfold len. cbn [String.length]. lia.
  - rewrite len_String. destruct (Z.leb_spec 0 (LastIndex s c)); [lia|].
    destruct (Ascii.eqb a c); lia.
Qed.

Lemma Index_app_sep f c r : Index f c = -1 → Index (f ++ String c r) c = len f.
Proof.
  induction f as [|a f IH]; cbn [Index String.append]; intros H.
  - now rewrite Ascii.eqb_refl.
  - rewrite len_String. destruct (Ascii.eqb a c); [discriminate|].
    pose proof (Index_range f c).
    destruct (Z.ltb_spec (Index f c) 0); [|lia].
    rewrite IH by lia. pose proof (len_nonneg f).
    destruct (Z.ltb_spec (len f) 0); lia.
Qed.

Lemma Index_split s c :
  0 <= Index s c →
  ∃ f r, s = f ++ String c r ∧ Index f c = -1 ∧ len f = Index s c.
Proof.
  induction s as [|a s IH]; cbn [Index]; [lia|].
  destruct (Ascii.eqb_spec a c) as [->|Hne].
  - intros _. now exists "", s.
  - destruct (Z.ltb_spec (Index s c) 0); [lia|]. intros _.
    destruct IH as (f & r & -> & Hf & Hlen); [lia|].
    exists (String a f), r. cbn [String.append Index]. rewrite len_String, Hf.
    apply Ascii.eqb_neq in Hne. rewrite Hne. repeat split. lia.
Qed.

Lemma LastIndex_app_sep p c e :
  LastIndex (p ++ String c e) c
  = if 0 <=? LastIndex e c then len p + 1 + LastIndex e c else len p.
Proof.
  induction p as [|a p IH]; cbn [LastIndex String.append].
  - rewrite Ascii.eqb_refl. unfold len. cbn [String.length].
    destruct (Z.leb_spec 0 (LastIndex e c)); lia.
  - rewrite IH, len_String. pose proof (len_nonneg p).
    destruct (Z.leb_spec 0 (LastIndex e c)).
    + destruct (Z.leb_spec 0 (len p + 1 + LastIndex e c)); lia.
    + destruct (Z.leb_spec 0 (len p)); lia.
Qed.

Lemma LastIndex_split s c :
  0 <= LastIndex s c →
  ∃ p e, s = p ++ String c e ∧ LastIndex e c = -1 ∧ len p = LastIndex s c.
Proof.
  induction s as [|a s IH]; cbn [LastIndex]; [lia|].
  destruct (Z.leb_spec 0 (LastIndex s c)) as [Hs|Hs].
  - intros _. destruct IH as (p & e & -> & He & Hlen); [lia|].
    exists (String a p), e. cbn [String.append]. rewrite len_String. repeat split; [done|lia].
  - destruct (Ascii.eqb_spec a c) as [->|Hne]; [|lia]. intros _.
    exists "", s. pose proof (LastIndex_range s c). repeat split. lia.
Qed.

Lemma LastIndex_absent s c : LastIndex s c = -1 ↔ Index s c = -1.
Proof.
  induction s as [|a s IH]; cbn [LastIndex Index]; [done|].
  pose proof (LastIndex_range s c). pose proof (Index_range s c).
  destruct (Z.leb_spec 0 (LastIndex s c)), (Ascii.eqb a c),
    (Z.ltb_spec (Index s c) 0); lia.
Qed.

(** A text whose first and last separators differ is
    [f ++ sep ++ m ++ sep ++ e] with no separator in [f] nor in [e]. *)
Lemma Index_LastIndex_split s c :
  0 <= Index s c → Index s c ≠ LastIndex s c →
  ∃ f m e, s = f ++ String c (m ++ String c e)
           ∧ Index f c = -1 ∧ Index e c = -1
           ∧ Index s c = len f ∧ LastIndex s c = len f + 1 + len m.
Proof.
  intros Hi Hne. destruct (Index_split s c Hi) as (f & r & -> & Hf & Hlen).
  rewrite LastIndex_app_sep in Hne |- *. rewrite <- Hlen in *.
  destruct (Z.leb_spec 0 (LastIndex r c)) as [Hr|Hr]; [|lia].
  destruct (LastIndex_split r c Hr) as (m & e & -> & He & Hm).
  exists f, m, e. rewrite LastIndex_absent in He.
  rewrite Hm. repeat split; done.
Qed.

Lemma substring_prefix m r : String.substring 0 (String.length m) (m ++ r) = m.
Proof.
  induction m as [|a m IH]; cbn.
  - now destruct r.
  - now rewrite IH.
Qed.

Lemma substring_skip p n r :
  String.substring (String.length p) n (p ++ r) = String.substring 0 n r.
Proof. induction p as [|a p IH]; cbn; [reflexivity|apply IH]. Qed.

Lemma substring_all s : String.substring 0 (String.length s) s = s.
Proof. rewrite <- (append_nil_r s) at 2. apply substring_prefix. Qed.

Lemma slice_prefix f r : slice (f ++ r) 0 (len f) = f.
Proof.
  unfold slice, len. rewrite Z.sub_0_r, Nat2Z.id. apply substring_prefix.
Qed.

Lemma slice_middle p m r : slice (p ++ m ++ r) (len p) (len p + len m) = m.
Proof.
  unfold slice, len. rewrite Nat2Z.id.
  replace (Z.to_nat _) with (String.length m) by lia.
  rewrite substring_skip. apply substring_prefix.
Qed.

Lemma slice_from_suffix p e : slice_from (p ++ e) (len p) = e.
Proof.
  unfold slice_from, slice. rewrite len_app. unfold len. rewrite Nat2Z.id.
  replace (Z.to_nat _) with (String.length e) by lia.
  rewrite substring_skip. apply substring_all.
Qed.

End strings_facts.

(** ** Trimming *)

Section trim_facts.
Import strings.
Variable cutset : string.

Local Abbreviation untrimmable := (untrimmableBy cutset).

Lemma TrimRight_cons a s :
  inCutset cutset a = false → TrimRight (String a s) cutset = String a (TrimRight s cutset).
Proof. intros H. cbn [TrimRight]. rewrite H. now destruct (TrimRight s cutset). Qed.

Lemma TrimLeft_untrimmable s : untrimmable (TrimLeft s cutset).
Proof.
  induction s as [|a s IH]; cbn [TrimLeft]; [exact I|].
  destruct (inCutset cutset a) eqn:Ha; [exact IH|exact Ha].
Qed.

Lemma TrimLeft_fixed s : untrimmable s → TrimLeft s cutset = s.
Proof. destruct s as [|a s]; cbn; [done|]. now intros ->. Qed.

Lemma TrimRight_untrimmable s : untrimmable s → untrimmable (TrimRight s cutset).
Proof.
  destruct s as [|a s]; [done|]. cbn [untrimmableBy]. intros H.
  now rewrite TrimRight_cons.
Qed.

Lemma TrimRight_idem s : TrimRight (TrimRight s cutset) cutset = TrimRight s cutset.
Proof.
  induction s as [|a s IH]; cbn [TrimRight]; [reflexivity|].
  destruct (TrimRight s cutset) as [|b t] eqn:Ht.
  - destruct (inCutset cutset a) eqn:Ha; cbn [TrimRight]; now rewrite ?Ha.
  - cbn [TrimRight] in IH |- *. now rewrite IH.
Qed.

Lemma TrimRight_snoc s c :
  inCutset cutset c = true → TrimRight (s ++ String c "") cutset = TrimRight s cutset.
Proof.
  intros Hc. induction s as [|a s IH]; cbn [String.append TrimRight].
  - now rewrite Hc.
  - now rewrite IH.
Qed.

Lemma Trim_untrimmable s : untrimmable (Trim s cutset).
Proof. apply TrimRight_untrimmable, TrimLeft_untrimmable. Qed.

(** Wrapping a trimmed text in two bytes of the cutset and trimming again
    gives the trimmed text back. *)
Lemma Trim_wrapped s l r :
  inCutset cutset l = true → inCutset cutset r = true →
  Trim (String l (Trim s cutset ++ String r "")) cutset = Trim s cutset.
Proof.
  intros Hl Hr. pose proof (Trim_untrimmable s) as Hu.
  unfold Trim at 1. cbn [TrimLeft]. rewrite Hl.
  destruct (Trim s cutset) as [|a t] eqn:Ht.
  - cbn. now rewrite Hr.
  - cbn [untrimmableBy] in Hu. cbn [String.append TrimLeft]. rewrite Hu.
    change (String a (t ++ String r "")) with (String a t ++ String r "").
    rewrite TrimRight_snoc by done. rewrite <- Ht. apply TrimRight_idem.
Qed.

(** A text none of whose bytes is in the cutset is left as it is. *)
Lemma Trim_clean s :
  forallb (λ c, negb (inCutset cutset c)) (list_ascii_of_string s) = true →
  Trim s cutset = s.
Proof.
  intros H. unfold Trim. assert (TrimLeft s cutset = s) as ->.
  { destruct s as [|a s]; [done|]. cbn in H |- *.
    now destruct (inCutset cutset a). }
  induction s as [|a s IH]; [done|]. cbn [list_ascii_of_string forallb] in H.
  apply andb_true_iff in H as [Ha Hs]. apply negb_true_iff in Ha.
  rewrite TrimRight_cons by done. now rewrite IH.
Qed.

End trim_facts.

(** ** Regular expressions *)

Section regexp_facts.
Import regexp.

Lemma dead_not_nullable r : dead r = true → nullable r = false.
Proof.
  induction r; cbn; intros H; try done.
  - apply orb_true_iff in H as [H|H]; [rewrite IHr1|rewrite IHr2]; auto using andb_false_r.
  - apply andb_true_iff in H as [H1 H2]. now rewrite IHr1, IHr2.
Qed.

Lemma dead_deriv c r : dead r = true → dead (deriv c r) = true.
Proof.
  induction r; cbn; intros H; try done.
  - apply orb_true_iff in H as [H|H].
    + rewrite (dead_not_nullable _ H). cbn. now rewrite IHr1.
    + destruct (nullable r1); cbn; rewrite ?IHr2, H by done; rewrite ?orb_true_r; done.
  - apply andb_true_iff in H as [H1 H2]. now rewrite IHr1, IHr2.
Qed.

Lemma dead_no_match s : ∀ r, dead r = true → MatchAnchored r s = false.
Proof.
  induction s as [|c s IH]; intros r H; cbn.
  - now apply dead_not_nullable.
  - now apply IH, dead_deriv.
Qed.

Lemma deriv_outside_alphabet c r : alphabet r c = false → dead (deriv c r) = true.
Proof.
  induction r; cbn; intros H; try done.
  - now rewrite H.
  - apply orb_false_iff in H as [H1 H2].
    destruct (nullable r1); cbn; now rewrite IHr1, ?IHr2.
  - apply orb_false_iff in H as [H1 H2]. now rewrite IHr1, IHr2.
  - now rewrite IHr.
Qed.

Lemma alphabet_deriv c c' r : alphabet (deriv c r) c' = true → alphabet r c' = true.
Proof.
  induction r; cbn; try done.
  - now destruct (p c).
  - destruct (nullable r1); cbn; rewrite !orb_true_iff; intuition.
  - rewrite !orb_true_iff; intuition.
  - rewrite !orb_true_iff; intuition.
Qed.

(** Every byte of a matched text is one the expression can read. *)
Lemma MatchAnchored_alphabet s : ∀ r,
  MatchAnchored r s = true → forallb (alphabet r) (list_ascii_of_string s) = true.
Proof.
  induction s as [|c s IH]; intros r H; cbn in *; [done|].
  destruct (alphabet r c) eqn:Hc; cbn.
  - specialize (IH _ H). rewrite forallb_forall in IH |- *.
    intros x Hx. eapply alphabet_deriv, IH, Hx.
  - rewrite dead_no_match in H; [done|]. now apply deriv_outside_alphabet.
Qed.

End regexp_facts.

(** ** FSS volume handles *)

Section fss_facts.
Import strings.

Lemma ValidateFssId_accepted id :
  accepted id = true →
  ValidateFssId id
  = {| FilesystemOcid := slice id 0 (Index id ":");
       MountTargetIPAddress := slice id (Index id ":" + 1) (LastIndex id ":");
       FsExportPath := slice_from id (LastIndex id ":" + 1) |}.
Proof.
  unfold accepted, validMountTarget, ValidateFssId. intros H.
  apply andb_true_iff in H as [Hguard Hvalid]. rewrite Hguard, Hvalid.
  destruct (String.eqb_spec id "") as [->|_]; [discriminate|reflexivity].
Qed.

Lemma ValidateFssId_rejected id : accepted id = false → ValidateFssId id = emptyHandle.
Proof.
  unfold accepted, validMountTarget, ValidateFssId, emptyHandle. intros H.
  destruct (String.eqb id ""); [reflexivity|].
  apply andb_false_iff in H as [-> | ->]; [reflexivity|].
  now destruct (_ && _).
Qed.

Lemma validMountTarget_nonempty m : validMountTarget m = true → m ≠ "".
Proof. intros H ->. discriminate. Qed.

Lemma nonempty_len s : s ≠ "" → 0 < len s.
Proof.
  intros H. pose proof (len_nonneg s).
  destruct (Z.eq_dec (len s) 0) as [E|]; [|lia]. now apply len_zero in E.
Qed.

(** Composition: three well-formed parts joined by colons are read back
    as those three parts. *)
Lemma ValidateFssId_compose f m e :
  f ≠ "" → Index f ":" = -1 → e ≠ "" → Index e ":" = -1 →
  validMountTarget m = true →
  ValidateFssId (f ++ ":" ++ m ++ ":" ++ e)
  = {| FilesystemOcid := f; MountTargetIPAddress := m; FsExportPath := e |}.
Proof.
  intros Hf Hfc He Hec Hm.
  change (f ++ ":" ++ m ++ ":" ++ e) with (f ++ String ":" (m ++ String ":" e)).
  set (id := f ++ String ":" (m ++ String ":" e)).
  assert (Hfirst : Index id ":" = len f) by now apply Index_app_sep.
  assert (Hlast : LastIndex id ":" = len f + 1 + len m).
  { unfold id. rewrite append_String, <- append_assoc, LastIndex_app_sep.
    apply LastIndex_absent in Hec. rewrite Hec. cbn [Z.leb Z.compare].
    rewrite !len_app. reflexivity. }
  assert (Hlen : len id = len f + 1 + len m + 1 + len e).
  { unfold id. rewrite len_app, len_String, len_app, len_String. lia. }
  pose proof (nonempty_len _ Hf). pose proof (nonempty_len _ He).
  pose proof (len_nonneg m).
  assert (Hmid : slice id (len f + 1) (len f + 1 + len m) = m).
  { unfold id. rewrite append_String.
    replace (len f + 1) with (len (f ++ String ":" "")) by now rewrite len_app.
    apply slice_middle. }
  rewrite ValidateFssId_accepted.
  - rewrite Hfirst, Hlast, Hmid. f_equal.
    + apply slice_prefix.
    + unfold id. rewrite append_String, (append_String m), <- (append_assoc _ _ e).
      replace (len f + 1 + len m + 1)
        with (len ((f ++ String ":" "") ++ m ++ String ":" ""))
        by (rewrite !len_app; change (len (String ":" "")) with 1; lia).
      apply slice_from_suffix.
  - unfold accepted. rewrite Hfirst, Hlast, Hlen, Hmid, Hm.
    repeat match goal with
           | |- context [?a <? ?b] => destruct (Z.ltb_spec a b); try lia
           | |- context [?a =? ?b] => destruct (Z.eqb_spec a b); try lia
           end;
    reflexivity.
Qed.

(** Decomposition: an accepted text is three well-formed parts joined by
    colons, and the slices of [ValidateFssId] are in range. *)
Lemma accepted_split id :
  accepted id = true →
  ∃ f m e, id = f ++ ":" ++ m ++ ":" ++ e
           ∧ f ≠ "" ∧ Index f ":" = -1 ∧ e ≠ "" ∧ Index e ":" = -1
           ∧ validMountTarget m = true
           ∧ Index id ":" = len f ∧ LastIndex id ":" = len f + 1 + len m.
Proof.
  intros H. pose proof H as H0. unfold accepted in H.
  repeat (apply andb_true_iff in H as [H ?]).
  apply Z.ltb_lt in H. apply negb_true_iff, Z.eqb_neq in H2. apply Z.ltb_lt in H3.
  destruct (Index_LastIndex_split id ":") as (f & m & e & Hid & Hf & He & Hi & Hj);
    [lia|done|].
  exists f, m, e.
  assert (Hlen : len id = len f + 1 + len m + 1 + len e).
  { rewrite Hid, len_app, len_String, len_app, len_String. lia. }
  assert (Hmid : slice id (len f + 1) (len f + 1 + len m) = m).
  { rewrite Hid, append_String.
    replace (len f + 1) with (len (f ++ String ":" "")) by now rewrite len_app.
    apply slice_middle. }
  rewrite Hi, Hj, Hmid in H1.
  repeat split; try done.
  - intros ->. rewrite Hi in H. unfold len in H. cbn in H. lia.
  - intros ->. rewrite Hj, Hlen in H3. unfold len in H3 at 5. cbn in H3. lia.
Qed.

Lemma ValidateFssId_split id :
  accepted id = true →
  ∃ f m e, id = f ++ ":" ++ m ++ ":" ++ e
           ∧ f ≠ "" ∧ Index f ":" = -1 ∧ e ≠ "" ∧ Index e ":" = -1
           ∧ validMountTarget m = true
           ∧ ValidateFssId id
             = {| FilesystemOcid := f; MountTargetIPAddress := m; FsExportPath := e |}.
Proof.
  intros H. destruct (accepted_split id H) as (f & m & e & Hid & Hf & Hfc & He & Hec & Hm & _).
  exists f, m, e. repeat split; try done.
  rewrite Hid. now apply ValidateFssId_compose.
Qed.

End fss_facts.

Example ValidateFssId_ipv4 :
  ValidateFssId "ocid1.filesystem.oc1..xxxx:10.0.0.5:/export/path"
  = {| FilesystemOcid := "ocid1.filesystem.oc1..xxxx";
       MountTargetIPAddress := "10.0.0.5";
       FsExportPath := "/export/path" |}.
Proof. vm_compute. reflexivity. Qed.

(** C6, as the claim states it, fails: for a bracketed IPv6 mount target
    the handle keeps the brackets, it does not hold the unbracketed
    candidate. *)
Lemma ValidateFssId_keeps_brackets :
  accepted "ocid1.filesystem.oc1..xxxx:[fd00:00c1::a9fe:202]:/export/path" = true
  ∧ ValidateFssId "ocid1.filesystem.oc1..xxxx:[fd00:00c1::a9fe:202]:/export/path"
    = {| FilesystemOcid := "ocid1.filesystem.oc1..xxxx";
         MountTargetIPAddress := "[fd00:00c1::a9fe:202]";
         FsExportPath := "/export/path" |}
  ∧ strings.Trim "[fd00:00c1::a9fe:202]" "[]" = "fd00:00c1::a9fe:202"
  ∧ MountTargetIPAddress
      (ValidateFssId "ocid1.filesystem.oc1..xxxx:[fd00:00c1::a9fe:202]:/export/path")
    ≠ strings.Trim "[fd00:00c1::a9fe:202]" "[]".
Proof. repeat split; try (vm_compute; reflexivity). vm_compute. discriminate. Qed.

(** C6, amended: an accepted text is [f ++ ":" ++ m ++ ":" ++ e] with no
    colon in [f] and none in [e], and the handle holds [f], the middle
    segment [m] exactly as written (brackets included) and [e]. *)
Theorem ValidateFssId_fields (id : string) :
  accepted id = true →
  ∃ f m e,
    id = f ++ ":" ++ m ++ ":" ++ e
    ∧ strings.Index f ":" = -1 ∧ strings.Index e ":" = -1
    ∧ m = strings.slice id (strings.Index id ":" + 1) (strings.LastIndex id ":")
    ∧ ValidateFssId id
      = {| FilesystemOcid := f; MountTargetIPAddress := m; FsExportPath := e |}.
Proof.
  intros H. destruct (ValidateFssId_split id H) as (f & m & e & Hid & _ & Hf & _ & He & _ & Hv).
  exists f, m, e. repeat split; try done.
  rewrite (ValidateFssId_accepted id H) in Hv. now injection Hv.
Qed.

Lemma ValidateFssId_fields_witness :
  ∃ f m e,
    "fs-1:[fd00::1]:/a" = f ++ ":" ++ m ++ ":" ++ e
    ∧ strings.Index f ":" = -1 ∧ strings.Index e ":" = -1
    ∧ m = strings.slice "fs-1:[fd00::1]:/a" (strings.Index "fs-1:[fd00::1]:/a" ":" + 1)
                        (strings.LastIndex "fs-1:[fd00::1]:/a" ":")
    ∧ ValidateFssId "fs-1:[fd00::1]:/a"
      = {| FilesystemOcid := f; MountTargetIPAddress := m; FsExportPath := e |}.
Proof. apply (ValidateFssId_fields "fs-1:[fd00::1]:/a"). vm_compute. reflexivity. Defined.

(** C7: [ValidateFssId] returns either the all-empty handle, exactly when
    the text is not accepted, or three non-empty fields which, joined by
    colons, are the text; its slices are always in range, so it cannot
    panic; the empty text and a text without colon give the all-empty
    handle. *)
Theorem ValidateFssId_all_or_nothing (id : string) :
  (ValidateFssId id = emptyHandle
   ∨ (FilesystemOcid (ValidateFssId id) ≠ ""
      ∧ MountTargetIPAddress (ValidateFssId id) ≠ ""
      ∧ FsExportPath (ValidateFssId id) ≠ ""
      ∧ id = FilesystemOcid (ValidateFssId id) ++ ":"
             ++ MountTargetIPAddress (ValidateFssId id) ++ ":"
             ++ FsExportPath (ValidateFssId id)))
  ∧ (ValidateFssId id = emptyHandle ↔ accepted id = false)
  ∧ (accepted id = true →
     0 <= strings.Index id ":"
     ∧ strings.Index id ":" + 1 <= strings.LastIndex id ":"
     ∧ strings.LastIndex id ":" + 1 <= strings.len id)
  ∧ ValidateFssId "" = emptyHandle
  ∧ ValidateFssId "no-colons-here" = emptyHandle.
Proof.
  assert (Hacc : accepted id = true →
                 FilesystemOcid (ValidateFssId id) ≠ ""
                 ∧ MountTargetIPAddress (ValidateFssId id) ≠ ""
                 ∧ FsExportPath (ValidateFssId id) ≠ ""
                 ∧ id = FilesystemOcid (ValidateFssId id) ++ ":"
                        ++ MountTargetIPAddress (ValidateFssId id) ++ ":"
                        ++ FsExportPath (ValidateFssId id)).
  { intros H.
    destruct (ValidateFssId_split id H) as (f & m & e & Hid & Hf & _ & He & _ & Hm & ->).
    cbn [FilesystemOcid MountTargetIPAddress FsExportPath].
    repeat split; try done. now apply validMountTarget_nonempty. }
  repeat split.
  - destruct (accepted id) eqn:H; [right; now apply Hacc|left; now apply ValidateFssId_rejected].
  - intros He. destruct (accepted id) eqn:H; [|reflexivity].
    destruct (Hacc eq_refl) as [Hf _]. now rewrite He in Hf.
  - apply ValidateFssId_rejected.
  - destruct (accepted_split id H) as (f & m & e & _ & _ & _ & _ & _ & _ & -> & _).
    apply len_nonneg.
  - destruct (accepted_split id H) as (f & m & e & _ & _ & _ & _ & _ & _ & -> & ->).
    pose proof (len_nonneg m). lia.
  - destruct (accepted_split id H) as (f & m & e & -> & _ & _ & _ & _ & _ & _ & ->).
    change (f ++ ":" ++ m ++ ":" ++ e) with (f ++ String ":" (m ++ String ":" e)).
    rewrite len_app, len_String, len_app, len_String. pose proof (len_nonneg e). lia.
Qed.

Lemma ValidateFssId_all_or_nothing_witness :
  0 <= strings.Index "fs-1:10.0.0.5:/a" ":"
  ∧ strings.Index "fs-1:10.0.0.5:/a" ":" + 1 <= strings.LastIndex "fs-1:10.0.0.5:/a" ":"
  ∧ strings.LastIndex "fs-1:10.0.0.5:/a" ":" + 1 <= strings.len "fs-1:10.0.0.5:/a".
Proof.
  apply (ValidateFssId_all_or_nothing "fs-1:10.0.0.5:/a"). vm_compute. reflexivity.
Defined.

(** No byte of a DNS name is a square bracket. *)
Lemma dnsNamePattern_alphabet c :
  alphabet dnsNamePattern c = true → negb (strings.inCutset "[]" c) = true.
Proof.
  destruct c as [[] [] [] [] [] [] [] []]; vm_compute; intros H; congruence.
Qed.

Lemma ValidateDNSName_Trim m : ValidateDNSName m = true → strings.Trim m "[]" = m.
Proof.
  intros H. apply Trim_clean. apply MatchAnchored_alphabet in H.
  rewrite forallb_forall in H |- *. intros c Hc. now apply dnsNamePattern_alphabet, H.
Qed.

(** What [FormatValidIp] returns is a valid mount target whenever its
    argument is one. *)
Lemma validMountTarget_FormatValidIp m :
  validMountTarget m = true → validMountTarget (FormatValidIp m) = true.
Proof.
  intros Hm. unfold FormatValidIp.
  destruct (negb (net.isNil (net.To4 (net.ParseIP m)))); [done|].
  destruct (negb (net.isNil (net.To16 (net.ParseIP m)))) eqn:H16; [|done].
  assert (Hparse : net.isNil (net.ParseIP m) = false).
  { destruct (net.ParseIP m); [discriminate|reflexivity]. }
  unfold validMountTarget in *.
  change ("[" ++ strings.Trim m "[]" ++ "]")
    with (String "[" (strings.Trim m "[]" ++ String "]" "")).
  rewrite Trim_wrapped by reflexivity.
  apply orb_true_iff in Hm as [Hm|Hm]; [now rewrite Hm|].
  rewrite ValidateDNSName_Trim by done. now rewrite Hparse.
Qed.

(** C8, as the claim states it, fails: an unbracketed IPv6 mount target
    comes back from the round trip with brackets. *)
Lemma round_trip_adds_brackets :
  accepted "ocid1.filesystem.oc1..xxxx:fd00:00c1::a9fe:202:/export/path" = true
  ∧ ValidateFssId "ocid1.filesystem.oc1..xxxx:fd00:00c1::a9fe:202:/export/path"
    = {| FilesystemOcid := "ocid1.filesystem.oc1..xxxx";
         MountTargetIPAddress := "fd00:00c1::a9fe:202";
         FsExportPath := "/export/path" |}
  ∧ serialize (ValidateFssId "ocid1.filesystem.oc1..xxxx:fd00:00c1::a9fe:202:/export/path")
    = "ocid1.filesystem.oc1..xxxx:[fd00:00c1::a9fe:202]:/export/path"
  ∧ ValidateFssId
      (serialize (ValidateFssId "ocid1.filesystem.oc1..xxxx:fd00:00c1::a9fe:202:/export/path"))
    = {| FilesystemOcid := "ocid1.filesystem.oc1..xxxx";
         MountTargetIPAddress := "[fd00:00c1::a9fe:202]";
         FsExportPath := "/export/path" |}
  ∧ ValidateFssId
      (serialize (ValidateFssId "ocid1.filesystem.oc1..xxxx:fd00:00c1::a9fe:202:/export/path"))
    ≠ ValidateFssId "ocid1.filesystem.oc1..xxxx:fd00:00c1::a9fe:202:/export/path".
Proof. repeat split; try (vm_compute; reflexivity). vm_compute. discriminate. Qed.

(** C8, amended: serialising an accepted parse and parsing again gives the
    same filesystem id and export path, and the mount target address as
    [FormatValidIp] wrote it; the three fields are reproduced whenever
    [FormatValidIp] leaves the address as it is, that is for every address
    but an unbracketed IPv6 literal.  The all-empty handle is a fixed point. *)
Theorem ValidateFssId_round_trip (id : string) :
  (accepted id = true →
   ValidateFssId (serialize (ValidateFssId id))
   = {| FilesystemOcid := FilesystemOcid (ValidateFssId id);
        MountTargetIPAddress := FormatValidIp (MountTargetIPAddress (ValidateFssId id));
        FsExportPath := FsExportPath (ValidateFssId id) |}
   ∧ (FormatValidIp (MountTargetIPAddress (ValidateFssId id))
      = MountTargetIPAddress (ValidateFssId id) →
      ValidateFssId (serialize (ValidateFssId id)) = ValidateFssId id))
  ∧ ValidateFssId (serialize emptyHandle) = emptyHandle.
Proof.
  split; [|vm_compute; reflexivity].
  intros H.
  destruct (ValidateFssId_split id H) as (f & m & e & _ & Hf & Hfc & He & Hec & Hm & ->).
  unfold serialize. cbn [FilesystemOcid MountTargetIPAddress FsExportPath].
  assert (Hround : ValidateFssId (f ++ ":" ++ FormatValidIp m ++ ":" ++ e)
                   = {| FilesystemOcid := f; MountTargetIPAddress := FormatValidIp m;
                        FsExportPath := e |}).
  { apply ValidateFssId_compose; try done. now apply validMountTarget_FormatValidIp. }
  split; [exact Hround|]. intros Hfix. rewrite Hround. now rewrite Hfix.
Qed.

Lemma ValidateFssId_round_trip_witness :
  ValidateFssId (serialize (ValidateFssId "fs-1:[fd00::1]:/a")) = ValidateFssId "fs-1:[fd00::1]:/a".
Proof.
  apply (ValidateFssId_round_trip "fs-1:[fd00::1]:/a"); vm_compute; reflexivity.
Defined.

(** ** Node address families *)

(** C9: when neither the ipv4 label nor the ipv6 label reads true, the
    family is IPv4 preferred, IPv4 enabled, IPv6 disabled, whatever the
    preferred label says; otherwise each flag is the reading of its label
    and the preferred family is the preferred label in its Kubernetes
    spelling (empty without such a label). *)
Theorem GetNodeIpFamily_resolution (k : string → option Node) (nodeID : string) (n : Node) :
  k nodeID = Some n →
  (labelIsTrue (Labels n) LabelIpFamilyIpv4 = false →
   labelIsTrue (Labels n) LabelIpFamilyIpv6 = false →
   GetNodeIpFamily k nodeID
   = Ok {| PreferredNodeIpFamily := "IPv4"; Ipv4Enabled := true; Ipv6Enabled := false |})
  ∧ (labelIsTrue (Labels n) LabelIpFamilyIpv4 = true
     ∨ labelIsTrue (Labels n) LabelIpFamilyIpv6 = true →
     GetNodeIpFamily k nodeID
     = Ok {| PreferredNodeIpFamily := preferredFromLabel (Labels n);
             Ipv4Enabled := labelIsTrue (Labels n) LabelIpFamilyIpv4;
             Ipv6Enabled := labelIsTrue (Labels n) LabelIpFamilyIpv6 |}).
Proof.
  intros Hk. unfold GetNodeIpFamily, labelIsTrue, preferredFromLabel. rewrite Hk.
  destruct (Labels n) as [labels|]; [|split; [reflexivity|intros [?|?]; discriminate]].
  destruct (labels !! LabelIpFamilyPreferred) as [p|];
    destruct (labels !! LabelIpFamilyIpv4) as [v4|];
    destruct (labels !! LabelIpFamilyIpv6) as [v6|];
    try destruct (strings.EqualFold v4 "true");
    try destruct (strings.EqualFold v6 "true");
    cbn; (split; [intros; try discriminate; reflexivity
                 |intros [?|?]; try discriminate; reflexivity]).
Qed.

Lemma GetNodeIpFamily_resolution_witness :
  let n := {| Labels := Some {[ LabelIpFamilyPreferred := "ipv6";
                                LabelIpFamilyIpv6 := "True" ]} |} in
  GetNodeIpFamily (λ _, Some n) "node-1"
  = Ok {| PreferredNodeIpFamily := preferredFromLabel (Labels n);
          Ipv4Enabled := labelIsTrue (Labels n) LabelIpFamilyIpv4;
          Ipv6Enabled := labelIsTrue (Labels n) LabelIpFamilyIpv6 |}.
Proof.
  intros n.
  apply (proj2 (GetNodeIpFamily_resolution (λ _, Some n) "node-1" n eq_refl)).
  right. vm_compute. reflexivity.
Defined.

(** ** IP addresses *)

Section net_facts.
Import net.

Ltac split_parse H :=
  repeat match type of H with
         | context [if ?b then _ else _] => destruct b eqn:?; try discriminate H
         | context [match ?x with _ => _ end] => destruct x eqn:?; try discriminate H
         end.

Lemma isByte_mod x : isByte (x mod 256).
Proof. unfold isByte. apply Z.mod_pos_bound. lia. Qed.

Lemma parseIPv4Fields_bytes s : ∀ prev val pos digLen fields r,
  Forall isByte fields →
  parseIPv4Fields prev val pos digLen fields s = Some r → Forall isByte r.
Proof.
  induction s as [|c s IH]; intros prev val pos digLen fields r Hf H; cbn [parseIPv4Fields] in H.
  - split_parse H. injection H as <-. apply Forall_insert; [done|apply isByte_mod].
  - split_parse H.
    + eapply IH; [|exact H]. done.
    + eapply IH; [|exact H]. apply Forall_insert; [done|apply isByte_mod].
Qed.

Lemma parseIPv4_bytes s r : parseIPv4 s = Some r → Forall isByte r.
Proof.
  apply parseIPv4Fields_bytes. repeat constructor; unfold isByte; lia.
Qed.

Lemma copyAt_bytes dst n src :
  Forall isByte dst → Forall isByte src → Forall isByte (copyAt dst n src).
Proof.
  intros Hd Hs. unfold copyAt.
  repeat apply Forall_app_2; auto using Forall_take, Forall_drop.
Qed.

Lemma parseIPv6Loop_bytes rounds : ∀ s ip ellipsis i s' ip' ellipsis' i',
  Forall isByte ip →
  parseIPv6Loop rounds s ip ellipsis i = Some (s', ip', ellipsis', i') →
  Forall isByte ip'.
Proof.
  induction rounds as [|rounds IH]; intros s ip ellipsis i s' ip' ellipsis' i' Hip H;
    cbn [parseIPv6Loop] in H.
  - now injection H as <- <- <- <-.
  - assert (Hw : ∀ acc, Forall isByte
              (<[Z.to_nat (i + 1) := acc mod 256]> (<[Z.to_nat i := Z.shiftr acc 8 mod 256]> ip))).
    { intros acc. repeat apply Forall_insert; auto using isByte_mod. }
    split_parse H; try (injection H as <- <- <- <-);
      first [ assumption
            | apply Hw
            | apply copyAt_bytes; [assumption|eapply parseIPv4_bytes; eassumption]
            | eapply IH; [|exact H]; apply Hw ].
Qed.

Lemma zeros16_bytes : Forall isByte zeros16.
Proof. apply Forall_replicate. unfold isByte. lia. Qed.

Lemma parseIPv6_bytes s r : parseIPv6 s = Some r → Forall isByte r.
Proof.
  unfold parseIPv6. intros H.
  destruct (startsWith ":" s && startsWith ":" (tail s)).
  - split_parse H; injection H as <-; auto using zeros16_bytes.
    + unfold expandEllipsis. apply parseIPv6Loop_bytes in Heqo; [|apply zeros16_bytes].
      repeat apply Forall_app_2; auto using Forall_take, Forall_drop.
      apply Forall_replicate. unfold isByte. lia.
    + eapply parseIPv6Loop_bytes; [apply zeros16_bytes|eassumption].
  - split_parse H; injection H as <-; auto using zeros16_bytes.
    + unfold expandEllipsis. apply parseIPv6Loop_bytes in Heqo; [|apply zeros16_bytes].
      repeat apply Forall_app_2; auto using Forall_take, Forall_drop.
      apply Forall_replicate. unfold isByte. lia.
    + eapply parseIPv6Loop_bytes; [apply zeros16_bytes|eassumption].
Qed.

Lemma parseAddr_bytes whole s r : parseAddr whole s = Some r → Forall isByte r.
Proof.
  induction s as [|c s IH]; cbn [parseAddr]; intros H; [discriminate|].
  split_parse H.
  - injection H as <-. repeat (constructor; [unfold isByte; lia|]).
    eapply parseIPv4_bytes; eassumption.
  - eapply parseIPv6_bytes; eassumption.
  - auto.
Qed.

(** Every element of what [ParseIP] returns is a byte. *)
Lemma ParseIP_bytes s : Forall isByte (ParseIP s).
Proof.
  unfold ParseIP. destruct (parseAddr s s) eqn:H; [|constructor].
  eapply parseAddr_bytes; eassumption.
Qed.

Lemma To4_bytes ip : Forall isByte ip → Forall isByte (To4 ip).
Proof.
  intros H. unfold To4. repeat case_match; auto using Forall_take, Forall_drop.
Qed.

(** [To4] returns nil or four bytes. *)
Lemma To4_shape ip : To4 ip = [] ∨ ∃ a b c d, To4 ip = [a; b; c; d].
Proof.
  unfold To4. case_bool_decide as H4.
  - right. destruct ip as [|a [|b [|c [|d [|]]]]]; try discriminate H4. eauto.
  - destruct (_ && _) eqn:H; [|now left]. right.
    repeat (apply andb_true_iff in H as [H ?]). apply bool_decide_eq_true in H.
    do 16 (destruct ip as [|? ip]; [discriminate H|]). cbn. eauto.
Qed.

End net_facts.

(** ** The synthesised iSCSI address *)

Section iscsi_facts.
Import net.

Lemma countFrom_spec n : ∀ start x,
  start <= x < start + Z.of_nat n → In x (countFrom n start).
Proof.
  induction n as [|n IH]; intros start x H; [lia|]. cbn [countFrom].
  destruct (Z.eq_dec start x) as [->|Hne]; [now left|].
  right. apply IH. lia.
Qed.

Lemma upTo_spec n x : 0 <= x < n → In x (upTo n).
Proof. intros H. unfold upTo. apply countFrom_spec. lia. Qed.

Lemma hexReadsBack_all : forallb hexReadsBack (upTo 65536) = true.
Proof. vm_compute. reflexivity. Qed.

(** [scanHex] reads back the group that [appendHex] printed. *)
Lemma scanHex_appendHex x :
  0 <= x < 65536 → ∃ n, scanHex 0 0 (appendHex x) = Some (n, x, "") ∧ 0 < n.
Proof.
  intros H. pose proof hexReadsBack_all as Hall.
  rewrite forallb_forall in Hall. specialize (Hall x (upTo_spec 65536 x H)).
  unfold hexReadsBack in Hall.
  destruct (scanHex 0 0 (appendHex x)) as [[[n v] [|? ?]]|]; try discriminate.
  apply andb_true_iff in Hall as [Hv Hn].
  apply Z.eqb_eq in Hv as ->. apply Z.ltb_lt in Hn. eauto.
Qed.

Lemma scanHex_app h : ∀ off acc off' acc' r,
  scanHex off acc h = Some (off', acc', "") →
  startsWith ":" r = true →
  scanHex off acc (h ++ r) = Some (off', acc', r).
Proof.
  induction h as [|c h IH]; intros off acc off' acc' r H Hr; cbn [scanHex String.append] in *.
  - injection H as <- <-. destruct r as [|a r]; [discriminate|].
    cbn in Hr. apply Ascii.eqb_eq in Hr as ->. reflexivity.
  - destruct (hexVal c); [|discriminate].
    destruct (3 <? off); [discriminate|].
    destruct (65535 <? _); [discriminate|]. now apply IH.
Qed.

Lemma groupSplits_all :
  forallb (λ a, forallb (groupSplits a) (upTo 256)) (upTo 256) = true.
Proof. vm_compute. reflexivity. Qed.

Lemma group_spec a b :
  isByte a → isByte b →
  let g := Z.lor (Z.shiftl a 8) b in
  Z.shiftr g 8 = a ∧ Z.land g 255 = b ∧ 0 <= g < 65536.
Proof.
  intros Ha Hb. pose proof groupSplits_all as Hall.
  rewrite forallb_forall in Hall. specialize (Hall a (upTo_spec 256 a Ha)).
  rewrite forallb_forall in Hall. specialize (Hall b (upTo_spec 256 b Hb)).
  unfold groupSplits in Hall. repeat (apply andb_true_iff in Hall as [Hall ?]).
  cbn zeta. rewrite Z.eqb_eq in *. rewrite Z.leb_le, Z.ltb_lt in *. auto.
Qed.

(** What [ScanHex] reads of the printed tail. *)
Lemma scanHex_iscsiTail g6 g7 :
  0 <= g6 < 65536 → 0 <= g7 < 65536 →
  ∃ n rest,
    scanHex 0 0 (iscsiTail g6 g7) = Some (n, (if g6 =? 0 then g7 else g6), rest)
    ∧ (rest = "" ↔ g6 = 0)
    ∧ (g6 ≠ 0 → rest = ":" ++ appendHex g7).
Proof.
  intros H6 H7. unfold iscsiTail.
  destruct (scanHex_appendHex g6 H6) as (n6 & E6 & _).
  destruct (scanHex_appendHex g7 H7) as (n7 & E7 & _).
  destruct (Z.eqb_spec g6 0) as [->|Hne6].
  - destruct (Z.eqb_spec g7 0) as [->|Hne7].
    + exists 0, "". cbn. done.
    + exists n7, "". rewrite E7. done.
  - exists n6, (":" ++ appendHex g7).
    rewrite (scanHex_app _ _ _ _ _ (":" ++ appendHex g7) E6 eq_refl).
    repeat split; try done.
Qed.

(** Two printed tails are equal only for equal groups. *)
Lemma iscsiTail_inj g6 g7 g6' g7' :
  0 <= g6 < 65536 → 0 <= g7 < 65536 → 0 <= g6' < 65536 → 0 <= g7' < 65536 →
  iscsiTail g6 g7 = iscsiTail g6' g7' → g6 = g6' ∧ g7 = g7'.
Proof.
  intros H6 H7 H6' H7' E.
  destruct (scanHex_iscsiTail g6 g7 H6 H7) as (n & rest & Hs & Hrest & Hcolon).
  destruct (scanHex_iscsiTail g6' g7' H6' H7') as (n' & rest' & Hs' & Hrest' & Hcolon').
  rewrite E, Hs' in Hs. injection Hs as -> Hv ->.
  destruct (Z.eqb_spec g6 0) as [->|Hne6], (Z.eqb_spec g6' 0) as [->|Hne6'].
  - split; [reflexivity|now symmetry].
  - exfalso. apply Hne6'. now apply Hrest', Hrest.
  - exfalso. apply Hne6. now apply Hrest, Hrest'.
  - split; [now symmetry|]. rewrite (Hcolon' Hne6') in Hcolon.
    specialize (Hcolon Hne6). cbn [String.append] in Hcolon.
    injection Hcolon as Hh.
    destruct (scanHex_appendHex g7 H7) as (m & E7 & _).
    destruct (scanHex_appendHex g7' H7') as (m' & E7' & _).
    rewrite Hh, E7 in E7'. now injection E7'.
Qed.

(** [IP.String] of an address that starts with the iSCSI prefix. *)
Lemma String_iscsi a b c d :
  0 <= a → 0 <= b → 0 <= c → 0 <= d →
  String_ (iscsiPrefixBytes ++ [a; b; c; d])%list
  = "fd00:c1::" ++ iscsiTail (Z.lor (Z.shiftl a 8) b) (Z.lor (Z.shiftl c 8) d).
Proof.
  intros Ha Hb Hc Hd.
  destruct a, b, c, d; try lia;
    lazy -[appendHex String.append]; rewrite ?append_nil_r; reflexivity.
Qed.

Lemma Convert_ok s a b c d :
  To4 (ParseIP s) = [a; b; c; d] →
  ConvertIscsiIpFromIpv4ToIpv6 s = Ok (String_ (iscsiPrefixBytes ++ [a; b; c; d])%list).
Proof. intros H. unfold ConvertIscsiIpFromIpv4ToIpv6. rewrite H. reflexivity. Qed.

Lemma Convert_err s :
  To4 (ParseIP s) = [] → ConvertIscsiIpFromIpv4ToIpv6 s = Err (InvalidIscsiIp s).
Proof. intros H. unfold ConvertIscsiIpFromIpv4ToIpv6. now rewrite H. Qed.

End iscsi_facts.

(** A text that parses as IPv4 is turned into the printed form of the iSCSI
    prefix followed by its four bytes. *)
Lemma Convert_parsed s :
  net.To4 (net.ParseIP s) = []
  ∨ ∃ a b c d,
      net.To4 (net.ParseIP s) = [a; b; c; d]
      ∧ (isByte a ∧ isByte b ∧ isByte c ∧ isByte d)
      ∧ ConvertIscsiIpFromIpv4ToIpv6 s
        = Ok (net.String_ (iscsiPrefixBytes ++ [a; b; c; d])%list)
      ∧ net.String_ (iscsiPrefixBytes ++ [a; b; c; d])%list
        = "fd00:c1::" ++ iscsiTail (Z.lor (Z.shiftl a 8) b) (Z.lor (Z.shiftl c 8) d).
Proof.
  destruct (To4_shape (net.ParseIP s)) as [H|(a & b & c & d & H)]; [now left|right].
  pose proof (To4_bytes _ (ParseIP_bytes s)) as Hb. rewrite H in Hb.
  apply Forall_cons in Hb as [Ha Hb]. apply Forall_cons in Hb as [Hb Hc].
  apply Forall_cons in Hc as [Hc Hd]. apply Forall_cons in Hd as [Hd _].
  exists a, b, c, d. split; [done|]. split; [done|].
  split; [now apply Convert_ok|].
  unfold isByte in *. apply String_iscsi; lia.
Qed.

(** C5: a text that does not parse as IPv4 is refused; one that does is
    turned into the printed 16-byte address made of the bytes of
    [fd00:00c1::] in its first twelve places and the four IPv4 bytes in its
    last four; and two texts with the same result have the same IPv4
    bytes. *)
Theorem ConvertIscsiIpFromIpv4ToIpv6_spec (s : string) :
  firstn 12 (net.ParseIP IscsiIpv6Prefix) = iscsiPrefixBytes
  ∧ ConvertIscsiIpFromIpv4ToIpv6 "203.0.113.5" = Ok "fd00:c1::cb00:7105"
  ∧ (net.To4 (net.ParseIP s) = [] →
     ConvertIscsiIpFromIpv4ToIpv6 s = Err (InvalidIscsiIp s))
  ∧ (net.To4 (net.ParseIP s) = []
     ∨ ∃ a b c d,
         net.To4 (net.ParseIP s) = [a; b; c; d]
         ∧ (isByte a ∧ isByte b ∧ isByte c ∧ isByte d)
         ∧ ConvertIscsiIpFromIpv4ToIpv6 s
           = Ok (net.String_ (iscsiPrefixBytes ++ [a; b; c; d])%list))
  ∧ (∀ s' r,
        ConvertIscsiIpFromIpv4ToIpv6 s = Ok r →
        ConvertIscsiIpFromIpv4ToIpv6 s' = Ok r →
        net.To4 (net.ParseIP s) = net.To4 (net.ParseIP s')).
Proof.
  split; [reflexivity|]. split; [vm_compute; reflexivity|].
  split; [apply Convert_err|]. split.
  - destruct (Convert_parsed s) as [H|(a & b & c & d & H & Hb & Hc & _)]; [now left|right].
    exists a, b, c, d. done.
  - intros s' r Hs Hs'.
    destruct (Convert_parsed s) as [H|(a & b & c & d & H & (Ha & Hb & Hc & Hd) & Hok & Hstr)].
    { rewrite (Convert_err _ H) in Hs. discriminate. }
    destruct (Convert_parsed s')
      as [H'|(a' & b' & c' & d' & H' & (Ha' & Hb' & Hc' & Hd') & Hok' & Hstr')].
    { rewrite (Convert_err _ H') in Hs'. discriminate. }
    rewrite H, H'. rewrite Hok in Hs. rewrite Hok' in Hs'.
    assert (Hr : net.String_ (iscsiPrefixBytes ++ [a; b; c; d])%list
                 = net.String_ (iscsiPrefixBytes ++ [a'; b'; c'; d'])%list) by congruence.
    rewrite Hstr, Hstr' in Hr. cbn [String.append] in Hr.
    injection Hr as Htail.
    destruct (group_spec a b Ha Hb) as (Ea & Eb & Hg6).
    destruct (group_spec c d Hc Hd) as (Ec & Ed & Hg7).
    destruct (group_spec a' b' Ha' Hb') as (Ea' & Eb' & Hg6').
    destruct (group_spec c' d' Hc' Hd') as (Ec' & Ed' & Hg7').
    cbn zeta in *.
    destruct (iscsiTail_inj _ _ _ _ Hg6 Hg7 Hg6' Hg7' Htail) as [E6 E7].
    rewrite E6 in Ea, Eb. rewrite E7 in Ec, Ed. congruence.
Qed.

Lemma ConvertIscsiIpFromIpv4ToIpv6_spec_witness :
  net.To4 (net.ParseIP "203.0.113.5") = net.To4 (net.ParseIP "::ffff:203.0.113.5").
Proof.
  apply (proj2 (proj2 (proj2 (proj2 (ConvertIscsiIpFromIpv4ToIpv6_spec "203.0.113.5"))))
               "::ffff:203.0.113.5" "fd00:c1::cb00:7105");
    vm_compute; reflexivity.
Defined.

(** * Further properties *)

(** ** Sizes *)

(** X1: a size that [ExtractStorage] agrees on is never below the 50 GiB
    minimum nor below the requirement, and it is the default, the
    requirement or the limit. *)
Theorem ExtractStorage_size_bounds (capRange : option CapacityRange) (size : Z) :
  ExtractStorage capRange = Ok size →
  MinimumVolumeSizeInBytes <= size
  ∧ GetRequiredBytes capRange <= size
  ∧ (size = defaultVolumeSizeInBytes
     ∨ size = GetRequiredBytes capRange ∨ size = GetLimitBytes capRange).
Proof.
  destruct capRange as [[required limit]|].
  - unfold ExtractStorage, MaxOfInt, GetRequiredBytes, GetLimitBytes, defaultVolumeSizeInBytes;
      cbn [RequiredBytes LimitBytes].
    assert (0 < MinimumVolumeSizeInBytes) by reflexivity.
    repeat match goal with
           | |- context [?a <? ?b] => destruct (Z.ltb_spec a b); cbn [negb andb orb]
           end;
      intros [= <-]; lia.
  - intros [= <-]. cbn. unfold defaultVolumeSizeInBytes.
    assert (0 < MinimumVolumeSizeInBytes) by reflexivity. lia.
Qed.

Lemma ExtractStorage_size_bounds_witness :
  MinimumVolumeSizeInBytes <= 60 * 2 ^ 30
  ∧ GetRequiredBytes (Some {| RequiredBytes := 60 * 2 ^ 30; LimitBytes := 0 |}) <= 60 * 2 ^ 30
  ∧ (60 * 2 ^ 30 = defaultVolumeSizeInBytes
     ∨ 60 * 2 ^ 30 = GetRequiredBytes (Some {| RequiredBytes := 60 * 2 ^ 30; LimitBytes := 0 |})
     ∨ 60 * 2 ^ 30 = GetLimitBytes (Some {| RequiredBytes := 60 * 2 ^ 30; LimitBytes := 0 |})).
Proof.
  apply (ExtractStorage_size_bounds
           (Some {| RequiredBytes := 60 * 2 ^ 30; LimitBytes := 0 |}) (60 * 2 ^ 30)).
  reflexivity.
Defined.

(** X2: [ExtractStorage] fails in one case only, a positive limit below a
    positive requirement, and then with the limit-less-than-required
    error; in particular no size, however large, is refused for exceeding
    the maximum. *)
Theorem ExtractStorage_fails_iff (capRange : option CapacityRange) (e : StorageError) :
  ExtractStorage capRange = Err e
  ↔ 0 < GetRequiredBytes capRange ∧ 0 < GetLimitBytes capRange
    ∧ GetLimitBytes capRange < GetRequiredBytes capRange
    ∧ e = LimitLessThanRequired (GetLimitBytes capRange) (GetRequiredBytes capRange).
Proof.
  destruct capRange as [[required limit]|].
  - unfold ExtractStorage, GetRequiredBytes, GetLimitBytes; cbn [RequiredBytes LimitBytes].
    repeat match goal with
           | |- context [?a <? ?b] => destruct (Z.ltb_spec a b); cbn [negb andb orb]
           end;
      (split; [intros [= <-]; repeat split; lia | intros (? & ? & ? & ->); try lia; reflexivity]).
  - cbn. split; [discriminate|lia].
Qed.

Lemma ExtractStorage_fails_iff_witness :
  0 < 2 ∧ 0 < 1 ∧ 1 < 2 ∧ LimitLessThanRequired 1 2 = LimitLessThanRequired 1 2.
Proof.
  apply (proj1 (ExtractStorage_fails_iff (Some {| RequiredBytes := 2; LimitBytes := 1 |})
                                         (LimitLessThanRequired 1 2))).
  reflexivity.
Defined.

Lemma wrap64_id z : - 2 ^ 63 <= z < 2 ^ 63 → wrap64 z = z.
Proof. intros H. unfold wrap64. rewrite Z.mod_small; lia. Qed.

Lemma wrap64_add_l x y : wrap64 (wrap64 x + y) = wrap64 (x + y).
Proof.
  unfold wrap64. f_equal.
  replace ((x + 2 ^ 63) mod 2 ^ 64 - 2 ^ 63 + y + 2 ^ 63)
    with ((x + 2 ^ 63) mod 2 ^ 64 + y) by lia.
  rewrite Z.add_mod_idemp_l by lia. f_equal. lia.
Qed.

(** X3: for a size that is not negative and a positive unit whose sum does
    not overflow, [RoundUpSize] is the number of units needed to hold the
    size, the quotient rounded up; a zero unit is a division by zero. *)
Theorem RoundUpSize_ceiling (volumeSizeBytes allocationUnitBytes : Z) :
  (0 <= volumeSizeBytes → 0 < allocationUnitBytes →
   volumeSizeBytes + allocationUnitBytes - 1 < 2 ^ 63 →
   ∃ units, RoundUpSize volumeSizeBytes allocationUnitBytes = Some units
            ∧ (units - 1) * allocationUnitBytes < volumeSizeBytes
                <= units * allocationUnitBytes)
  ∧ RoundUpSize volumeSizeBytes 0 = None.
Proof.
  split; [|reflexivity]. intros Hv Ha Hsum. unfold RoundUpSize.
  destruct (Z.eqb_spec allocationUnitBytes 0); [lia|].
  change (wrap64 (volumeSizeBytes + allocationUnitBytes) - 1)
    with (wrap64 (volumeSizeBytes + allocationUnitBytes) + -1).
  rewrite wrap64_add_l.
  replace (volumeSizeBytes + allocationUnitBytes + -1)
    with (volumeSizeBytes + allocationUnitBytes - 1) by lia.
  rewrite (wrap64_id (volumeSizeBytes + allocationUnitBytes - 1)) by lia.
  rewrite Z.quot_div_nonneg by lia.
  pose proof (Z.div_mod (volumeSizeBytes + allocationUnitBytes - 1) allocationUnitBytes).
  pose proof (Z.mod_pos_bound (volumeSizeBytes + allocationUnitBytes - 1) allocationUnitBytes).
  pose proof (Z.div_pos (volumeSizeBytes + allocationUnitBytes - 1) allocationUnitBytes).
  pose proof (Z.div_le_upper_bound (volumeSizeBytes + allocationUnitBytes - 1)
                                   allocationUnitBytes
                                   (volumeSizeBytes + allocationUnitBytes - 1)).
  eexists. split; [rewrite wrap64_id; [reflexivity|nia]|]. nia.
Qed.

Lemma RoundUpSize_ceiling_witness :
  ∃ units, RoundUpSize (50 * 2 ^ 30 + 1) (2 ^ 30) = Some units
           ∧ (units - 1) * 2 ^ 30 < 50 * 2 ^ 30 + 1 <= units * 2 ^ 30.
Proof.
  apply (proj1 (RoundUpSize_ceiling (50 * 2 ^ 30 + 1) (2 ^ 30))); lia.
Defined.

(** ** Runs of lock operations *)

Lemma stepLock_mem vl op id :
  id ∈ locks (stepLock vl op)
  ↔ match op with
    | OpTryAcquire v => id = v ∨ id ∈ locks vl
    | OpRelease v => id ≠ v ∧ id ∈ locks vl
    end.
Proof.
  destruct op as [v|v]; cbn [stepLock].
  - destruct (decide (v ∈ locks vl)) as [Hin|Hout].
    + rewrite (TryAcquire_held _ _ Hin). cbn. split; [tauto|]. intros [->|?]; done.
    + rewrite (TryAcquire_free _ _ Hout). cbn. rewrite elem_of_union, elem_of_singleton. tauto.
  - cbn. rewrite elem_of_difference, elem_of_singleton. tauto.
Qed.

(** X4: acquiring a free id and releasing it gives the lock set back as it
    was, and so does releasing a held id and acquiring it again. *)
Theorem TryAcquire_Release_restore (vl : VolumeLocks) (id : string) :
  (id ∉ locks vl → Release (snd (TryAcquire vl id)) id = vl)
  ∧ (id ∈ locks vl → TryAcquire (Release vl id) id = (true, vl)).
Proof.
  split; intros H.
  - rewrite (TryAcquire_free _ _ H). destruct vl as [s]. unfold Release. cbn in *. f_equal.
    apply set_eq. intros x. rewrite elem_of_difference, elem_of_union, elem_of_singleton.
    destruct (decide (x = id)) as [->|]; tauto.
  - rewrite TryAcquire_free.
    + destruct vl as [s]. cbn in *. do 2 f_equal.
      apply set_eq. intros x. rewrite elem_of_union, elem_of_difference, elem_of_singleton.
      destruct (decide (x = id)) as [->|]; tauto.
    + cbn. rewrite elem_of_difference, elem_of_singleton. tauto.
Qed.

Lemma TryAcquire_Release_restore_witness :
  Release (snd (TryAcquire NewVolumeLocks "vol-a")) "vol-a" = NewVolumeLocks.
Proof.
  apply (proj1 (TryAcquire_Release_restore NewVolumeLocks "vol-a")).
  cbn. apply not_elem_of_empty.
Defined.

(** X5: mutual exclusion over a run.  While no call releases a held id,
    whatever else is acquired or released, the id stays held and
    [TryAcquire] on it fails; calls on other ids never change whether an id
    is held; and an id held after a run from the empty set was acquired in
    that run. *)
Theorem runLocks_exclusion (vl : VolumeLocks) (ops : list LockOp) (id : string) :
  (id ∈ locks vl → (∀ op, In op ops → op ≠ OpRelease id) →
   fst (TryAcquire (runLocks vl ops) id) = false)
  ∧ ((∀ op, In op ops → opVolume op ≠ id) →
     (id ∈ locks (runLocks vl ops) ↔ id ∈ locks vl))
  ∧ (id ∈ locks (runLocks NewVolumeLocks ops) → In (OpTryAcquire id) ops).
Proof.
  unfold runLocks. split; [|split].
  - revert vl. induction ops as [|op ops IH]; intros vl Hin Hops; cbn.
    + now rewrite (TryAcquire_held _ _ Hin).
    + apply IH.
      * apply stepLock_mem. destruct op as [v|v]; [now right|].
        split; [|done]. intros ->. apply (Hops (OpRelease v)); [now left|done].
      * intros op' Hop'. apply Hops. now right.
  - revert vl. induction ops as [|op ops IH]; intros vl Hops; cbn; [done|].
    rewrite IH by (intros op' Hop'; apply Hops; now right).
    rewrite stepLock_mem. specialize (Hops op (or_introl eq_refl)).
    destruct op as [v|v]; cbn in Hops; split; try tauto.
    + intros [->|?]; done.
    + intros ?. split; [congruence|done].
  - assert (Hgen : ∀ v, id ∈ locks (fold_left stepLock ops v)
                        → id ∈ locks v ∨ In (OpTryAcquire id) ops).
    { induction ops as [|op ops IH]; intros v H; cbn in *; [now left|].
      destruct (IH _ H) as [Hs|Hs]; [|now right; right].
      apply stepLock_mem in Hs. destruct op as [w|w].
      - destruct Hs as [->|Hs]; [right; now left|now left].
      - left. tauto. }
    intros H. destruct (Hgen _ H) as [Hs|Hs]; [|done].
    cbn in Hs. now apply not_elem_of_empty in Hs.
Qed.

Lemma runLocks_exclusion_witness :
  fst (TryAcquire (runLocks {| locks := {["vol-a"]} |}
                            [OpTryAcquire "vol-b"; OpRelease "vol-b"; OpTryAcquire "vol-a"])
                  "vol-a") = false.
Proof.
  apply (proj1 (runLocks_exclusion {| locks := {["vol-a"]} |}
                  [OpTryAcquire "vol-b"; OpRelease "vol-b"; OpTryAcquire "vol-a"] "vol-a")).
  - cbn. now apply elem_of_singleton.
  - intros op [<-|[<-|[<-|[]]]]; discriminate.
Defined.

(** ** Availability domain names *)

Lemma Split_nonempty s sep : strings2.Split s sep ≠ [].
Proof.
  induction s as [|c s IH]; cbn; [done|].
  destruct (Ascii.eqb c sep); [done|]. now destruct (strings2.Split s sep).
Qed.

Lemma lastElement_cons x l : l ≠ [] → lastElement (x :: l) = lastElement l.
Proof.
  intros H. unfold lastElement. destruct l as [|y l]; [done|].
  cbn [length]. replace (S (S (length l)) - 1)%nat with (S (length l)) by lia.
  replace (S (length l) - 1)%nat with (length l) by lia. reflexivity.
Qed.

(** The last piece of [Split] is the whole text when it has no separator,
    and what follows the last separator otherwise. *)
Lemma Split_last s sep :
  (strings.Index s sep = -1 ∧ strings2.Split s sep = [s])
  ∨ ∃ p e, s = p ++ String sep e ∧ strings.Index e sep = -1
           ∧ lastElement (strings2.Split s sep) = e.
Proof.
  induction s as [|c s IH]; [now left|]. cbn [strings2.Split strings.Index].
  destruct (Ascii.eqb_spec c sep) as [->|Hne].
  - right. rewrite lastElement_cons by apply Split_nonempty.
    destruct IH as [[Hi Hs]|(p & e & -> & He & Hl)].
    + exists "", s. rewrite Hs. done.
    + exists (String sep p), e. done.
  - destruct IH as [[Hi Hs]|(p & e & -> & He & Hl)].
    + left. rewrite Hi, Hs. done.
    + right. exists (String c p), e. repeat split; [done|].
      pose proof (Split_nonempty (p ++ String sep e) sep) as Hn.
      destruct (strings2.Split (p ++ String sep e) sep) as [|h t] eqn:E; [done|].
      destruct t as [|h' t].
      * (* one piece only would mean no separator *)
        exfalso. clear Hl.
        assert (Hlen : ∀ u, length (strings2.Split (u ++ String sep e) sep) ≥ 2).
        { clear. induction u as [|a u IHu]; cbn.
          - rewrite Ascii.eqb_refl. cbn.
            pose proof (Split_nonempty e sep). destruct (strings2.Split e sep); cbn; [done|lia].
          - destruct (Ascii.eqb a sep); cbn; [lia|].
            destruct (strings2.Split (u ++ String sep e) sep) as [|? [|? ?]]; cbn in *; lia. }
        specialize (Hlen p). rewrite E in Hlen. cbn in Hlen. lia.
      * rewrite lastElement_cons in Hl by done. now rewrite lastElement_cons.
Qed.

Lemma Index_present p c e : 0 <= strings.Index (p ++ String c e) c.
Proof.
  induction p as [|a p IH]; cbn [String.append strings.Index].
  - now rewrite Ascii.eqb_refl.
  - destruct (Ascii.eqb a c); [done|].
    destruct (Z.ltb_spec (strings.Index (p ++ String c e) c) 0); lia.
Qed.

(** X6: [GetAvailableDomainInNodeLabel] returns what follows the last colon
    of its argument, the whole argument when it has no colon; the result
    holds no colon, so converting twice changes nothing more. *)
Theorem GetAvailableDomainInNodeLabel_suffix (fullAD : string) :
  GetAvailableDomainInNodeLabel fullAD
  = strings.slice_from fullAD (strings.LastIndex fullAD ":" + 1)
  ∧ strings.Index (GetAvailableDomainInNodeLabel fullAD) ":" = -1
  ∧ GetAvailableDomainInNodeLabel (GetAvailableDomainInNodeLabel fullAD)
    = GetAvailableDomainInNodeLabel fullAD
  ∧ (strings.Index fullAD ":" = -1 → GetAvailableDomainInNodeLabel fullAD = fullAD).
Proof.
  assert (Hget : ∀ s, GetAvailableDomainInNodeLabel s = lastElement (strings2.Split s ":")).
  { intros s. unfold GetAvailableDomainInNodeLabel.
    pose proof (Split_nonempty s ":"). now destruct (strings2.Split s ":"). }
  assert (Hnone : ∀ s, strings.Index s ":" = -1 → GetAvailableDomainInNodeLabel s = s).
  { intros s Hs. rewrite Hget.
    destruct (Split_last s ":") as [[_ ->]|(p & e & -> & _ & _)]; [reflexivity|].
    pose proof (Index_present p ":" e). lia. }
  assert (Hres : strings.Index (GetAvailableDomainInNodeLabel fullAD) ":" = -1).
  { rewrite Hget. destruct (Split_last fullAD ":") as [[Hi ->]|(p & e & -> & He & ->)]; done. }
  split; [|split; [exact Hres|split; [now apply Hnone|apply Hnone]]].
  rewrite Hget. destruct (Split_last fullAD ":") as [[Hi ->]|(p & e & -> & He & ->)].
  - apply LastIndex_absent in Hi. rewrite Hi. cbn [lastElement length nth Nat.sub].
    unfold strings.slice_from, strings.slice. cbn [Z.add Z.to_nat].
    rewrite Z.sub_0_r. unfold strings.len. rewrite Nat2Z.id. symmetry. apply substring_all.
  - rewrite LastIndex_app_sep. apply LastIndex_absent in He. rewrite He. cbn [Z.leb Z.compare].
    rewrite append_String.
    replace (strings.len p + 1) with (strings.len (p ++ String ":" ""))
      by (rewrite len_app; reflexivity).
    symmetry. apply slice_from_suffix.
Qed.

Lemma GetAvailableDomainInNodeLabel_suffix_witness :
  GetAvailableDomainInNodeLabel "US-ASHBURN-AD-1" = "US-ASHBURN-AD-1".
Proof.
  apply (proj2 (proj2 (proj2 (GetAvailableDomainInNodeLabel_suffix "US-ASHBURN-AD-1")))).
  reflexivity.
Defined.

(** ** Decimal integers *)

Section strconv_facts.
Import strconv.

Lemma isDigit_range c : net.isDigit c = true → 0 <= net.byteOf c - 48 <= 9.
Proof. unfold net.isDigit. intros H. apply andb_true_iff in H as [H1 H2]. lia. Qed.

(** One round of the loop of [ParseUint]: a digit is read, any other byte
    is a syntax error. *)
Lemma parseUintLoop_step n c rest :
  parseUintLoop n (String c rest)
  = if net.isDigit c then
      if maxUint64 / 10 + 1 <=? n then Err ErrRange
      else if maxUint64 <? n * 10 + (net.byteOf c - 48) then Err ErrRange
      else parseUintLoop (n * 10 + (net.byteOf c - 48)) rest
    else Err ErrSyntax.
Proof. destruct c as [[] [] [] [] [] [] [] []]; reflexivity. Qed.

Lemma atoiDigits_step n c rest :
  atoiDigits n (String c rest)
  = if net.isDigit c then atoiDigits (n * 10 + (net.byteOf c - 48)) rest else None.
Proof. destruct c as [[] [] [] [] [] [] [] []]; reflexivity. Qed.

Lemma atoiDigits_decimal s : ∀ n, atoiDigits n s = decimal n s.
Proof.
  induction s as [|c s IH]; intros n; [reflexivity|].
  rewrite atoiDigits_step. cbn [decimal]. now destruct (net.isDigit c).
Qed.

Lemma decimal_ge s : ∀ n v, 0 <= n → decimal n s = Some v → n <= v ∧ n * 10 ^ strings.len s <= v.
Proof.
  induction s as [|c s IH]; intros n v Hn H; cbn [decimal] in H.
  - injection H as <-. change (strings.len "") with 0. lia.
  - destruct (net.isDigit c) eqn:Hc; [|discriminate].
    pose proof (isDigit_range c Hc). apply IH in H; [|lia].
    rewrite len_String. pose proof (len_nonneg s).
    rewrite Z.pow_add_r, Z.pow_1_r by lia.
    assert (0 < 10 ^ strings.len s) by (apply Z.pow_pos_nonneg; lia). nia.
Qed.

Lemma decimal_lt s : ∀ n v, 0 <= n → decimal n s = Some v → v < (n + 1) * 10 ^ strings.len s.
Proof.
  induction s as [|c s IH]; intros n v Hn H; cbn [decimal] in H.
  - injection H as <-. change (strings.len "") with 0. lia.
  - destruct (net.isDigit c) eqn:Hc; [|discriminate].
    pose proof (isDigit_range c Hc). apply IH in H; [|lia].
    rewrite len_String. pose proof (len_nonneg s).
    rewrite Z.pow_add_r, Z.pow_1_r by lia.
    assert (0 < 10 ^ strings.len s) by (apply Z.pow_pos_nonneg; lia). nia.
Qed.

(** The loop of [ParseUint] reads the decimal value, and gives it up only
    when it does not fit 64 bits. *)
Lemma parseUintLoop_decimal s : ∀ n v,
  0 <= n <= maxUint64 →
  parseUintLoop n s = Ok v ↔ decimal n s = Some v ∧ v <= maxUint64.
Proof.
  induction s as [|c s IH]; intros n v Hn.
  - cbn. split; [intros [= <-]; split; [done|lia]|intros [[= <-] _]; done].
  - rewrite parseUintLoop_step. cbn [decimal].
    destruct (net.isDigit c) eqn:Hc; [|split; [discriminate|intros [? _]; discriminate]].
    pose proof (isDigit_range c Hc) as Hd.
    assert (Hcut : maxUint64 / 10 + 1 = 1844674407370955162) by reflexivity.
    assert (Hmax : maxUint64 = 18446744073709551615) by reflexivity.
    destruct (Z.leb_spec (maxUint64 / 10 + 1) n) as [Hbig|Hsmall].
    { split; [discriminate|]. intros [H Hv]. apply decimal_ge in H; lia. }
    destruct (Z.ltb_spec maxUint64 (n * 10 + (net.byteOf c - 48))) as [Hbig|Hfit].
    { split; [discriminate|]. intros [H Hv]. apply decimal_ge in H; lia. }
    apply IH. lia.
Qed.

Lemma ParseUint_decimal s v :
  ParseUint s = Ok v ↔ s ≠ "" ∧ decimal 0 s = Some v ∧ v <= maxUint64.
Proof.
  destruct s as [|c s]; [split; [discriminate|intros [? _]; done]|].
  unfold ParseUint.
  rewrite parseUintLoop_decimal by (change maxUint64 with 18446744073709551615; lia).
  split; [intros [? ?]; done|intros (_ & ? & ?); done].
Qed.

Lemma isEmpty_spec s : net.isEmpty s = true ↔ s = "".
Proof. destruct s; cbn; split; done. Qed.

Lemma ParseInt_body neg body v :
  (match ParseUint body with
   | Err ErrSyntax => Err ErrSyntax
   | Err ErrRange => Err ErrRange
   | Ok un =>
     if negb neg && (2 ^ 63 <=? un) then Err ErrRange
     else if neg && (2 ^ 63 <? un) then Err ErrRange
     else Ok (if neg then wrap64 (- wrap64 un) else wrap64 un)
   end = Ok v)
  ↔ body ≠ "" ∧ ∃ un, decimal 0 body = Some un
                      ∧ v = (if neg then - un else un) ∧ - 2 ^ 63 <= v < 2 ^ 63.
Proof.
  destruct (ParseUint body) as [un|e] eqn:E.
  - apply ParseUint_decimal in E as (Hne & Hd & Hmax).
    pose proof (decimal_ge _ _ _ (Z.le_refl 0) Hd) as [Hun _].
    assert (Hw : un < 2 ^ 63 → wrap64 un = un) by (intros; apply wrap64_id; lia).
    split.
    + intros H. split; [done|]. exists un. split; [done|].
      destruct neg; cbn [negb andb] in H.
      * destruct (Z.ltb_spec (2 ^ 63) un); [discriminate|]. injection H as <-.
        destruct (Z.eq_dec un (2 ^ 63)) as [->|].
        { assert (wrap64 (- wrap64 (2 ^ 63)) = - 2 ^ 63) as -> by reflexivity. lia. }
        rewrite Hw by lia. rewrite wrap64_id by lia. lia.
      * destruct (Z.leb_spec (2 ^ 63) un); [discriminate|]. injection H as <-.
        rewrite Hw by lia. lia.
    + intros (_ & un' & Hd' & -> & Hr). rewrite Hd in Hd'. injection Hd' as <-.
      destruct neg; cbn [negb andb].
      * destruct (Z.ltb_spec (2 ^ 63) un); [lia|]. f_equal.
        destruct (Z.eq_dec un (2 ^ 63)) as [->|]; [reflexivity|].
        rewrite Hw by lia. rewrite wrap64_id by lia. lia.
      * destruct (Z.leb_spec (2 ^ 63) un); [lia|]. f_equal. apply Hw. lia.
  - assert (Hno : ¬ (body ≠ "" ∧ ∃ un, decimal 0 body = Some un
                                       ∧ v = (if neg then - un else un) ∧ - 2 ^ 63 <= v < 2 ^ 63)).
    { intros (Hne & un & Hd & -> & Hr).
      pose proof (decimal_ge _ _ _ (Z.le_refl 0) Hd) as [Hun _].
      assert (ParseUint body = Ok un) as Hok.
      { apply ParseUint_decimal. repeat split; try done.
        change maxUint64 with 18446744073709551615. destruct neg; lia. }
      rewrite Hok in E. discriminate. }
    destruct e; (split; [discriminate|intros H; now apply Hno in H]).
Qed.

(** [ParseInt] accepts exactly the decimal integers that fit [int64], and
    returns their value. *)
Lemma ParseInt_signedDecimal s v :
  ParseInt s = Ok v ↔ signedDecimal s = Some v ∧ - 2 ^ 63 <= v < 2 ^ 63.
Proof.
  destruct s as [|c rest]; [split; [discriminate|intros [? _]; discriminate]|].
  unfold ParseInt, signedDecimal.
  destruct (Ascii.eqb c "+") eqn:Hplus; [|destruct (Ascii.eqb c "-") eqn:Hminus].
  - rewrite (ParseInt_body false rest v). destruct (net.isEmpty rest) eqn:He.
    + apply isEmpty_spec in He as ->. split; [intros [? _]; done|intros [? _]; done].
    + split.
      * intros (_ & un & -> & -> & ?). done.
      * intros [Hd Hr]. split; [intros ->; discriminate|eauto].
  - rewrite (ParseInt_body true rest v). destruct (net.isEmpty rest) eqn:He.
    + apply isEmpty_spec in He as ->. split; [intros [? _]; done|intros [? _]; done].
    + split.
      * intros (_ & un & -> & -> & ?). done.
      * intros [Hd Hr]. split; [intros ->; discriminate|].
        destruct (decimal 0 rest) as [un|]; [|discriminate]. injection Hd as <-. eauto.
  - rewrite (ParseInt_body false (String c rest) v). split.
    + intros (_ & un & -> & -> & ?). done.
    + intros [Hd Hr]. split; [done|eauto].
Qed.

(** [Atoi] accepts the same texts with the same values, on its fast path
    and on its slow one. *)
Lemma Atoi_signedDecimal s v :
  Atoi s = Ok v ↔ signedDecimal s = Some v ∧ - 2 ^ 63 <= v < 2 ^ 63.
Proof.
  unfold Atoi.
  destruct ((0 <? strings.len s) && (strings.len s <? 19)) eqn:Hfast;
    [|apply ParseInt_signedDecimal].
  apply andb_true_iff in Hfast as [Hpos Hlen]. apply Z.ltb_lt in Hpos, Hlen.
  destruct s as [|c rest]; [split; [discriminate|intros [? _]; discriminate]|].
  rewrite len_String in Hlen.
  assert (Hbound : ∀ body n, strings.len body <= 18 → decimal 0 body = Some n →
                             0 <= n < 2 ^ 63).
  { intros body n Hb Hd. pose proof (decimal_ge _ _ _ (Z.le_refl 0) Hd) as [? _].
    pose proof (decimal_lt _ _ _ (Z.le_refl 0) Hd) as Hlt.
    pose proof (len_nonneg body).
    assert (10 ^ strings.len body <= 10 ^ 18) by (apply Z.pow_le_mono_r; lia).
    change (10 ^ 18) with 1000000000000000000 in *.
    change (2 ^ 63) with 9223372036854775808. lia. }
  unfold signedDecimal. rewrite !atoiDigits_decimal.
  destruct (Ascii.eqb c "+") eqn:Hplus; [|destruct (Ascii.eqb c "-") eqn:Hminus].
  - rewrite orb_true_r. cbn [andb].
    assert (c ≠ "-"%char) as Hm by (apply Ascii.eqb_eq in Hplus as ->; discriminate).
    apply Ascii.eqb_neq in Hm. rewrite Hm.
    destruct (net.isEmpty rest) eqn:He.
    + apply isEmpty_spec in He as ->. cbn. split; [discriminate|intros [? _]; discriminate].
    + assert ((strings.len rest <? 1) = false) as ->.
      { apply Z.ltb_ge. destruct rest; [discriminate|]. rewrite len_String.
        pose proof (len_nonneg rest). lia. }
      destruct (decimal 0 rest) as [n|] eqn:Hd; [|split; [discriminate|intros [? _]; discriminate]].
      specialize (Hbound rest n ltac:(lia) Hd).
      split; [intros [= <-]; split; [done|lia]|intros [[= <-] _]; done].
  - cbn [orb andb].
    destruct (net.isEmpty rest) eqn:He.
    + apply isEmpty_spec in He as ->. cbn. split; [discriminate|intros [? _]; discriminate].
    + assert ((strings.len rest <? 1) = false) as ->.
      { apply Z.ltb_ge. destruct rest; [discriminate|]. rewrite len_String.
        pose proof (len_nonneg rest). lia. }
      destruct (decimal 0 rest) as [n|] eqn:Hd; [|split; [discriminate|intros [? _]; discriminate]].
      specialize (Hbound rest n ltac:(lia) Hd). cbn [option_map].
      split; [intros [= <-]; split; [done|lia]|intros [[= <-] _]; done].
  - cbn [orb andb].
    destruct (decimal 0 (String c rest)) as [n|] eqn:Hd;
      [|split; [discriminate|intros [? _]; discriminate]].
    specialize (Hbound (String c rest) n ltac:(rewrite len_String; lia) Hd).
    split; [intros [= <-]; split; [done|lia]|intros [[= <-] _]; done].
Qed.

End strconv_facts.

(** ** Attributes *)

(** X7: [ExtractBlockVolumePerformanceLevel] accepts exactly the decimal
    integers (optional sign, at least one digit, leading zeros allowed)
    whose value lies between 0 and 120, and returns that value; everything
    else, a text that overflows [int64] included, is an error. *)
Theorem ExtractBlockVolumePerformanceLevel_accepts (attribute : string) (vpus : Z) :
  ExtractBlockVolumePerformanceLevel attribute = Ok vpus
  ↔ signedDecimal attribute = Some vpus ∧ 0 <= vpus <= 120.
Proof.
  unfold ExtractBlockVolumePerformanceLevel, LowCostPerformanceOption,
    MaxUltraHighPerformanceOption.
  destruct (strconv.ParseInt attribute) as [v|e] eqn:E.
  - apply ParseInt_signedDecimal in E as [Hd Hr].
    destruct (Z.ltb_spec v 0), (Z.ltb_spec 120 v); cbn [orb];
      (split; [intros [= <-]; try (split; [done|lia])
              |intros [Hd' ?]; rewrite Hd in Hd'; injection Hd' as <-; try lia; reflexivity]).
  - split; [discriminate|]. intros [Hd Hr].
    assert (strconv.ParseInt attribute = Ok vpus) as Hok.
    { apply ParseInt_signedDecimal. split; [done|]. lia. }
    rewrite Hok in E. discriminate.
Qed.

Lemma ExtractBlockVolumePerformanceLevel_accepts_witness :
  ExtractBlockVolumePerformanceLevel "+020" = Ok 20.
Proof.
  apply (proj2 (ExtractBlockVolumePerformanceLevel_accepts "+020" 20)).
  split; [reflexivity|lia].
Defined.

(** X8: [ExtractISCSIInformation] succeeds exactly when the three attributes
    are present and the port is a decimal integer that fits [int]; the disk
    then holds the IQN and the address as given and the value of the port,
    which may be negative or above 65535.  A missing IQN is reported before
    a missing address, and that before a missing port. *)
Theorem ExtractISCSIInformation_accepts (ISCSIIQN ISCSIIP ISCSIPORT : string)
        (attributes : gmap string string) (d : Disk) :
  (ExtractISCSIInformation ISCSIIQN ISCSIIP ISCSIPORT attributes = Ok d
   ↔ attributes !! ISCSIIQN = Some (IQN d)
     ∧ attributes !! ISCSIIP = Some (IscsiIp d)
     ∧ ∃ port, attributes !! ISCSIPORT = Some port
               ∧ signedDecimal port = Some (Port d) ∧ - 2 ^ 63 <= Port d < 2 ^ 63)
  ∧ (attributes !! ISCSIIQN = None →
     ExtractISCSIInformation ISCSIIQN ISCSIIP ISCSIPORT attributes = Err UnableToGetIQN)
  ∧ (is_Some (attributes !! ISCSIIQN) → attributes !! ISCSIIP = None →
     ExtractISCSIInformation ISCSIIQN ISCSIIP ISCSIPORT attributes = Err UnableToGetIscsiIp)
  ∧ (is_Some (attributes !! ISCSIIQN) → is_Some (attributes !! ISCSIIP) →
     attributes !! ISCSIPORT = None →
     ExtractISCSIInformation ISCSIIQN ISCSIIP ISCSIPORT attributes = Err UnableToGetPort).
Proof.
  unfold ExtractISCSIInformation. split; [|split; [|split]].
  - destruct (attributes !! ISCSIIQN) as [iqn|]; [|split; [discriminate|intros [? _]; discriminate]].
    destruct (attributes !! ISCSIIP) as [ip|];
      [|split; [discriminate|intros (_ & ? & _); discriminate]].
    destruct (attributes !! ISCSIPORT) as [port|];
      [|split; [discriminate|intros (_ & _ & ? & ? & _); discriminate]].
    destruct (strconv.Atoi port) as [n|e] eqn:E.
    + apply Atoi_signedDecimal in E as [Hd Hr]. split.
      * intros [= <-]. cbn. split; [done|]. split; [done|]. exists port. done.
      * intros ([= ->] & [= ->] & port' & [= <-] & Hd' & _).
        rewrite Hd in Hd'. injection Hd' as ->. now destruct d.
    + split; [discriminate|]. intros (_ & _ & port' & [= <-] & Hd & Hr).
      assert (strconv.Atoi port = Ok (Port d)) as Hok by now apply Atoi_signedDecimal.
      rewrite Hok in E. discriminate.
  - now intros ->.
  - intros [iqn ->] ->. reflexivity.
  - intros [iqn ->] [ip ->] ->. reflexivity.
Qed.

Lemma ExtractISCSIInformation_accepts_witness :
  ExtractISCSIInformation "iqn" "ipv4" "port" {[ "ipv4" := "169.254.2.2"; "port" := "3260" ]}
  = Err UnableToGetIQN.
Proof.
  apply (proj1 (proj2 (ExtractISCSIInformation_accepts "iqn" "ipv4" "port"
                         {[ "ipv4" := "169.254.2.2"; "port" := "3260" ]}
                         {| IQN := ""; IscsiIp := ""; Port := 0 |}))).
  vm_compute. reflexivity.
Defined.



(** ** Waiting for a path *)




(** ** Subnets, cluster and node families *)

(** X11: every subnet is of exactly one kind.  It is dual stack with a
    usable primary CIDR and an IPv6 CIDR, IPv4 single stack with a usable
    primary CIDR and no IPv6 CIDR, and IPv6 single stack whenever it has no
    usable primary CIDR, even when it has no IPv6 CIDR either. *)
Theorem Subnet_one_kind (subnet : Subnet) :
  IsDualStackSubnet subnet = usablePrimaryCidr subnet && hasIpv6Cidr subnet
  ∧ IsIpv4SingleStackSubnet subnet = usablePrimaryCidr subnet && negb (hasIpv6Cidr subnet)
  ∧ IsIpv6SingleStackSubnet subnet = negb (usablePrimaryCidr subnet)
  ∧ ((IsDualStackSubnet subnet = true ∧ IsIpv4SingleStackSubnet subnet = false
      ∧ IsIpv6SingleStackSubnet subnet = false)
     ∨ (IsDualStackSubnet subnet = false ∧ IsIpv4SingleStackSubnet subnet = true
        ∧ IsIpv6SingleStackSubnet subnet = false)
     ∨ (IsDualStackSubnet subnet = false ∧ IsIpv4SingleStackSubnet subnet = false
        ∧ IsIpv6SingleStackSubnet subnet = true)).
Proof.
  unfold IsIpv6SingleStackSubnet, IsIpv4SingleStackSubnet.
  assert (Hd : IsDualStackSubnet subnet = usablePrimaryCidr subnet && hasIpv6Cidr subnet)
    by reflexivity.
  fold (usablePrimaryCidr subnet). rewrite Hd.
  destruct (usablePrimaryCidr subnet), (hasIpv6Cidr subnet); cbn; tauto.
Qed.

Lemma HasPrefix_spec s p : strings2.HasPrefix s p = true ↔ ∃ b, s = p ++ b.
Proof.
  revert s. induction p as [|c p IH]; intros s; cbn [strings2.HasPrefix].
  - split; [intros _; now exists s|intros _; now destruct s].
  - destruct s as [|a s]; cbn [strings2.HasPrefix].
    + split; [discriminate|intros [b Hb]; discriminate].
    + rewrite andb_true_iff, IH. split.
      * intros [Hc [b ->]]. apply Ascii.eqb_eq in Hc as ->. now exists b.
      * intros [b [= -> ->]]. split; [apply Ascii.eqb_refl|now exists b].
Qed.

(** [Contains] holds exactly when the text occurs somewhere. *)
Lemma Contains_spec s sub : strings2.Contains s sub = true ↔ ∃ a b, s = a ++ sub ++ b.
Proof.
  induction s as [|c s IH]; cbn [strings2.Contains]; rewrite orb_true_iff, HasPrefix_spec.
  - split.
    + intros [[b Hb]|?]; [|discriminate]. now exists "", b.
    + intros (a & b & H). left. destruct a; [now exists b|discriminate].
  - rewrite IH. split.
    + intros [[b Hb]|(a & b & ->)]; [now exists "", b|now exists (String c a), b].
    + intros (a & b & H). destruct a as [|c' a]; [left; now exists b|].
      right. injection H as -> ->. now exists a, b.
Qed.

(** X12: a cluster IP family is valid exactly when ["IPv4"] or ["IPv6"]
    occurs in it, in this spelling; the test for a non-empty text adds
    nothing. *)
Theorem IsValidIpFamilyPresentInClusterIpFamily_occurs (clusterIpFamily : string) :
  (IsValidIpFamilyPresentInClusterIpFamily clusterIpFamily = true
   ↔ ∃ a b, clusterIpFamily = a ++ "IPv4" ++ b ∨ clusterIpFamily = a ++ "IPv6" ++ b)
  ∧ IsValidIpFamilyPresentInClusterIpFamily clusterIpFamily
    = strings2.Contains clusterIpFamily Ipv4Stack || strings2.Contains clusterIpFamily Ipv6Stack.
Proof.
  assert (Hocc : strings2.Contains clusterIpFamily Ipv4Stack
                 || strings2.Contains clusterIpFamily Ipv6Stack = true
                 ↔ ∃ a b, clusterIpFamily = a ++ "IPv4" ++ b ∨ clusterIpFamily = a ++ "IPv6" ++ b).
  { rewrite orb_true_iff, !Contains_spec. unfold Ipv4Stack, Ipv6Stack. split.
    - intros [(a & b & ->)|(a & b & ->)]; exists a, b; tauto.
    - intros (a & b & [->| ->]); [left|right]; now exists a, b. }
  assert (Hlen : strings2.Contains clusterIpFamily Ipv4Stack
                 || strings2.Contains clusterIpFamily Ipv6Stack = true
                 → (0 <? strings.len clusterIpFamily) = true).
  { intros H. apply Hocc in H as (a & b & H). apply Z.ltb_lt.
    destruct H as [-> | ->]; rewrite !len_app; pose proof (len_nonneg a);
      pose proof (len_nonneg b);
      [change (strings.len "IPv4") with 4|change (strings.len "IPv6") with 4]; lia. }
  unfold IsValidIpFamilyPresentInClusterIpFamily. split.
  - rewrite andb_true_iff. rewrite <- Hocc. tauto.
  - destruct (_ || _) eqn:E; [rewrite Hlen by done; reflexivity|apply andb_false_r].
Qed.

Lemma IsValidIpFamilyPresentInClusterIpFamily_occurs_witness :
  IsValidIpFamilyPresentInClusterIpFamily "IPv4,IPv6" = true.
Proof.
  apply (proj2 (proj1 (IsValidIpFamilyPresentInClusterIpFamily_occurs "IPv4,IPv6"))).
  exists "", ",IPv6". now left.
Defined.

Lemma GetNodeIpFamily_found k nodeID n :
  k nodeID = Some n →
  GetNodeIpFamily k nodeID
  = Ok (if negb (labelIsTrue (Labels n) LabelIpFamilyIpv4)
           && negb (labelIsTrue (Labels n) LabelIpFamilyIpv6)
        then {| PreferredNodeIpFamily := Ipv4Stack; Ipv4Enabled := true; Ipv6Enabled := false |}
        else {| PreferredNodeIpFamily := preferredFromLabel (Labels n);
                Ipv4Enabled := labelIsTrue (Labels n) LabelIpFamilyIpv4;
                Ipv6Enabled := labelIsTrue (Labels n) LabelIpFamilyIpv6 |}).
Proof.
  intros Hk. unfold GetNodeIpFamily, labelIsTrue, preferredFromLabel. rewrite Hk.
  destruct (Labels n) as [labels|]; [|reflexivity].
  destruct (labels !! LabelIpFamilyPreferred) as [p|];
    destruct (labels !! LabelIpFamilyIpv4) as [v4|];
    destruct (labels !! LabelIpFamilyIpv6) as [v6|];
    try destruct (strings.EqualFold v4 "true");
    try destruct (strings.EqualFold v6 "true"); reflexivity.
Qed.

(** X13: [GetNodeIpFamily] fails only when the node cannot be fetched; a
    family it returns has IPv4 or IPv6 enabled, and it is an IPv6
    single-stack node exactly when the ipv6 label reads true and the ipv4
    label does not, so the default is never IPv6 single stack. *)
Theorem GetNodeIpFamily_enabled (k : string → option Node) (nodeID : string) :
  (k nodeID = None ↔ GetNodeIpFamily k nodeID = Err FailedToGetNode)
  ∧ (∀ n f, k nodeID = Some n → GetNodeIpFamily k nodeID = Ok f →
       Ipv4Enabled f || Ipv6Enabled f = true
       ∧ (IsIpv6SingleStackNode (Some f) = true
          ↔ labelIsTrue (Labels n) LabelIpFamilyIpv6 = true
            ∧ labelIsTrue (Labels n) LabelIpFamilyIpv4 = false)).
Proof.
  split.
  - destruct (k nodeID) as [n|] eqn:Hk.
    + rewrite (GetNodeIpFamily_found _ _ _ Hk). split; discriminate.
    + unfold GetNodeIpFamily. rewrite Hk. done.
  - intros n f Hk Hf. rewrite (GetNodeIpFamily_found _ _ _ Hk) in Hf. injection Hf as <-.
    destruct (labelIsTrue (Labels n) LabelIpFamilyIpv4),
      (labelIsTrue (Labels n) LabelIpFamilyIpv6); cbn; intuition congruence.
Qed.

Lemma GetNodeIpFamily_enabled_witness :
  let n := {| Labels := Some {[ LabelIpFamilyIpv6 := "true" ]} |} in
  let f := {| PreferredNodeIpFamily := ""; Ipv4Enabled := false; Ipv6Enabled := true |} in
  Ipv4Enabled f || Ipv6Enabled f = true
  ∧ (IsIpv6SingleStackNode (Some f) = true
     ↔ labelIsTrue (Labels n) LabelIpFamilyIpv6 = true
       ∧ labelIsTrue (Labels n) LabelIpFamilyIpv4 = false).
Proof.
  intros n f.
  apply (proj2 (GetNodeIpFamily_enabled (λ _, Some n) "node-1") n f eq_refl).
  vm_compute. reflexivity.
Defined.

Lemma foldByte_idem c : strings.foldByte (strings.foldByte c) = strings.foldByte c.
Proof. destruct c as [[] [] [] [] [] [] [] []]; reflexivity. Qed.

Lemma EqualFold_refl s : strings.EqualFold s s = true.
Proof. induction s as [|c s IH]; cbn; [done|]. now rewrite Ascii.eqb_refl. Qed.

Lemma EqualFold_sym s : ∀ t, strings.EqualFold s t = strings.EqualFold t s.
Proof.
  induction s as [|c s IH]; intros [|d t]; cbn; try done.
  now rewrite Ascii.eqb_sym, IH.
Qed.

Lemma EqualFold_trans s : ∀ t u,
  strings.EqualFold s t = true → strings.EqualFold t u = true → strings.EqualFold s u = true.
Proof.
  induction s as [|c s IH]; intros [|d t] [|e u]; cbn; try done.
  rewrite !andb_true_iff. intros [H1 H2] [H3 H4].
  apply Ascii.eqb_eq in H1, H3. split; [apply Ascii.eqb_eq; congruence|eauto].
Qed.

(** X14: [FormatValidIpStackInK8SConvention] gives a text that equals its
    argument up to the case of letters; two arguments that equal ["IPv4"]
    or ["IPv6"] up to case get the same result; and formatting twice
    changes nothing more. *)
Theorem FormatValidIpStackInK8SConvention_normal (ipStack : string) :
  strings.EqualFold (FormatValidIpStackInK8SConvention ipStack) ipStack = true
  ∧ FormatValidIpStackInK8SConvention (FormatValidIpStackInK8SConvention ipStack)
    = FormatValidIpStackInK8SConvention ipStack
  ∧ (∀ other,
       strings.EqualFold ipStack other = true →
       strings.EqualFold other "IPv4" = true ∨ strings.EqualFold other "IPv6" = true →
       FormatValidIpStackInK8SConvention ipStack = FormatValidIpStackInK8SConvention other).
Proof.
  unfold FormatValidIpStackInK8SConvention, Ipv4Stack, Ipv6Stack. split; [|split].
  - destruct (strings.EqualFold ipStack "IPv4") eqn:H4; [now rewrite EqualFold_sym|].
    destruct (strings.EqualFold ipStack "IPv6") eqn:H6; [now rewrite EqualFold_sym|].
    apply EqualFold_refl.
  - destruct (strings.EqualFold ipStack "IPv4") eqn:H4; [reflexivity|].
    destruct (strings.EqualFold ipStack "IPv6") eqn:H6; [reflexivity|].
    now rewrite H4, H6.
  - intros other Heq Hother.
    assert (H4 : strings.EqualFold ipStack "IPv4" = strings.EqualFold other "IPv4").
    { destruct (strings.EqualFold other "IPv4") eqn:E.
      - eapply EqualFold_trans; eassumption.
      - destruct (strings.EqualFold ipStack "IPv4") eqn:E'; [|done].
        rewrite <- E. symmetry. eapply EqualFold_trans; [|exact E'].
        now rewrite EqualFold_sym. }
    assert (H6 : strings.EqualFold ipStack "IPv6" = strings.EqualFold other "IPv6").
    { destruct (strings.EqualFold other "IPv6") eqn:E.
      - eapply EqualFold_trans; eassumption.
      - destruct (strings.EqualFold ipStack "IPv6") eqn:E'; [|done].
        rewrite <- E. symmetry. eapply EqualFold_trans; [|exact E'].
        now rewrite EqualFold_sym. }
    rewrite H4, H6.
    destruct (strings.EqualFold other "IPv4"); [reflexivity|].
    destruct (strings.EqualFold other "IPv6"); [reflexivity|].
    destruct Hother; discriminate.
Qed.

Lemma FormatValidIpStackInK8SConvention_normal_witness :
  FormatValidIpStackInK8SConvention "ipV6" = FormatValidIpStackInK8SConvention "IPV6".
Proof.
  apply (proj2 (proj2 (FormatValidIpStackInK8SConvention_normal "ipV6")) "IPV6").
  - reflexivity.
  - right. reflexivity.
Defined.

(** ** Address literals *)

Lemma parseAddr_bracket w : ∀ t, net.parseAddr (String "[" w) t = None.
Proof.
  induction t as [|c t IH]; cbn [net.parseAddr]; [reflexivity|].
  destruct (Ascii.eqb c "."); [reflexivity|].
  destruct (Ascii.eqb c ":"); [|destruct (Ascii.eqb c "%"); [reflexivity|exact IH]].
  destruct (0 <=? strings.Index (String "[" w) "%"); reflexivity.
Qed.

(** A text that starts with a bracket is no IP address. *)
Lemma ParseIP_bracket w : net.ParseIP (String "[" w) = [].
Proof. unfold net.ParseIP. now rewrite parseAddr_bracket. Qed.

Lemma FormatValidIp_bracket w : FormatValidIp (String "[" w) = String "[" w.
Proof. unfold FormatValidIp. now rewrite ParseIP_bracket. Qed.

Lemma FormatValidIp_cases s :
  FormatValidIp s = s
  ∨ (net.isNil (net.To4 (net.ParseIP s)) = true
     ∧ FormatValidIp s = String "[" (strings.Trim s "[]" ++ String "]" "")).
Proof.
  unfold FormatValidIp. destruct (net.isNil (net.To4 (net.ParseIP s))); cbn [negb]; [|now left].
  destruct (negb (net.isNil (net.To16 (net.ParseIP s)))); [right|left]; done.
Qed.

(** X15: [FormatValidIp] is a normal form: formatting twice gives what
    formatting once gives.  It leaves IPv4 literals and texts that already
    start with a bracket as they are, and what it makes of an IPv6 literal,
    bracketed or not, is still classified as IPv6; no text is both IPv4 and
    IPv6. *)
Theorem FormatValidIp_normal (ipAddress : string) :
  FormatValidIp (FormatValidIp ipAddress) = FormatValidIp ipAddress
  ∧ (IsIpv4 ipAddress = true → FormatValidIp ipAddress = ipAddress)
  ∧ (net.startsWith "[" ipAddress = true → FormatValidIp ipAddress = ipAddress)
  ∧ (IsIpv6 ipAddress = true → IsIpv6 (FormatValidIp ipAddress) = true)
  ∧ IsIpv4 ipAddress && IsIpv6 ipAddress = false.
Proof.
  split; [|split; [|split; [|split]]].
  - destruct (FormatValidIp_cases ipAddress) as [E|[_ E]]; [now rewrite !E|].
    rewrite E. apply FormatValidIp_bracket.
  - unfold IsIpv4, FormatValidIp. now intros ->.
  - destruct ipAddress as [|c w]; [discriminate|]. cbn. intros H.
    apply Ascii.eqb_eq in H as ->. apply FormatValidIp_bracket.
  - intros H. destruct (FormatValidIp_cases ipAddress) as [E|[_ E]]; rewrite E; [done|].
    unfold IsIpv6 in *. rewrite ParseIP_bracket. cbn [net.To4 net.isNil andb].
    apply andb_true_iff in H as [_ H].
    rewrite Trim_wrapped by reflexivity. exact H.
  - unfold IsIpv4, IsIpv6. now destruct (net.isNil (net.To4 (net.ParseIP ipAddress))).
Qed.

Lemma FormatValidIp_normal_witness :
  IsIpv6 (FormatValidIp "fd00:00c1::a9fe:202") = true.
Proof.
  apply (proj1 (proj2 (proj2 (proj2 (FormatValidIp_normal "fd00:00c1::a9fe:202"))))).
  vm_compute. reflexivity.
Defined.

(** ** DNS names are no IP literals *)

Section dns_facts.
Import regexp.

Lemma MatchAnchored_Void s : MatchAnchored Void s = false.
Proof. induction s; cbn; auto. Qed.

Lemma MatchAnchored_Alt s : ∀ r1 r2,
  MatchAnchored (Alt r1 r2) s = MatchAnchored r1 s || MatchAnchored r2 s.
Proof. induction s as [|c s IH]; intros r1 r2; cbn; [reflexivity|apply IH]. Qed.

(** A text matched by a concatenation splits into two matched texts. *)
Lemma MatchAnchored_Cat s : ∀ r1 r2,
  MatchAnchored (Cat r1 r2) s = true →
  ∃ s1 s2, s = s1 ++ s2 ∧ MatchAnchored r1 s1 = true ∧ MatchAnchored r2 s2 = true.
Proof.
  induction s as [|c s IH]; intros r1 r2 H; cbn in H.
  - apply andb_true_iff in H as [H1 H2]. now exists "", "".
  - destruct (nullable r1) eqn:Hn.
    + rewrite MatchAnchored_Alt in H. apply orb_true_iff in H as [H|H].
      * apply IH in H as (s1 & s2 & -> & H1 & H2). now exists (String c s1), s2.
      * exists "", (String c s). done.
    + apply IH in H as (s1 & s2 & -> & H1 & H2). now exists (String c s1), s2.
Qed.

Lemma string_snoc s : s ≠ "" → ∃ p c, s = p ++ String c "".
Proof.
  induction s as [|a s IH]; [done|]. intros _. destruct s as [|b s].
  - now exists "", a.
  - destruct IH as (p & c & ->); [done|]. now exists (String a p), c.
Qed.

Lemma forallb_snoc (f : ascii → bool) p c :
  forallb f (list_ascii_of_string (p ++ String c "")) = true → f c = true.
Proof.
  induction p as [|a p IH]; cbn; rewrite andb_true_iff; [tauto|]. intros [_ H]. auto.
Qed.

(** A DNS name ends in a letter. *)
Lemma ValidateDNSName_last s :
  ValidateDNSName s = true → ∃ p c, s = p ++ String c "" ∧ alpha c = true.
Proof.
  unfold ValidateDNSName, dnsNamePattern. intros H.
  apply MatchAnchored_Cat in H as (s1 & s2 & -> & _ & H2).
  assert (s2 ≠ "") as Hne by (intros ->; discriminate).
  destruct (string_snoc s2 Hne) as (p & c & ->).
  exists (s1 ++ p), c. split; [now rewrite append_assoc|].
  apply MatchAnchored_alphabet in H2. apply forallb_snoc in H2.
  cbn in H2. now destruct (alpha c).
Qed.

End dns_facts.

(** A dotted IPv4 text ends in a digit. *)
Lemma parseIPv4Fields_last p c : ∀ prev val pos digLen fields r,
  net.parseIPv4Fields prev val pos digLen fields (p ++ String c "") = Some r →
  net.isDigit c = true.
Proof.
  induction p as [|a p IH]; intros prev val pos digLen fields r H;
    cbn [String.append net.parseIPv4Fields] in H.
  - destruct (net.isDigit c); [reflexivity|].
    destruct (Ascii.eqb c "."); [|discriminate].
    cbn [net.isEmpty] in H. rewrite orb_true_r in H. discriminate.
  - repeat match type of H with
           | context [if ?b then _ else _] => destruct b; try discriminate H
           end; eapply IH; exact H.
Qed.

Lemma alpha_not_digit c : alpha c = true → net.isDigit c = false.
Proof. destruct c as [[] [] [] [] [] [] [] []]; vm_compute; congruence. Qed.

Lemma dnsNamePattern_no_colon c :
  alphabet dnsNamePattern c = true → Ascii.eqb c ":" = false ∧ Ascii.eqb c "%" = false.
Proof. destruct c as [[] [] [] [] [] [] [] []]; vm_compute; intros H; split; congruence. Qed.

Lemma parseAddr_no_colon whole : ∀ t r,
  forallb (λ c, negb (Ascii.eqb c ":")) (list_ascii_of_string t) = true →
  net.parseAddr whole t = Some r → ∃ fields, net.parseIPv4 whole = Some fields.
Proof.
  induction t as [|c t IH]; intros r Hc H; cbn [net.parseAddr] in H; [discriminate|].
  cbn in Hc. apply andb_true_iff in Hc as [Hc Ht]. apply negb_true_iff in Hc.
  rewrite Hc in H. destruct (Ascii.eqb c ".").
  - destruct (net.parseIPv4 whole); [eauto|discriminate].
  - destruct (Ascii.eqb c "%"); [discriminate|]. eapply IH; eassumption.
Qed.

Lemma ValidateDNSName_ParseIP name : ValidateDNSName name = true → net.ParseIP name = [].
Proof.
  intros H. unfold net.ParseIP.
  destruct (net.parseAddr name name) as [ip|] eqn:E; [|reflexivity].
  exfalso. apply parseAddr_no_colon in E as [fields E].
  - destruct (ValidateDNSName_last name H) as (p & c & -> & Hc).
    apply parseIPv4Fields_last in E. apply alpha_not_digit in Hc. congruence.
  - apply MatchAnchored_alphabet in H. rewrite forallb_forall in H |- *.
    intros c Hc. apply H, dnsNamePattern_no_colon in Hc as [-> _]. reflexivity.
Qed.

Lemma ValidateDNSName_FormatValidIp name :
  ValidateDNSName name = true → FormatValidIp name = name.
Proof. intros H. unfold FormatValidIp. now rewrite (ValidateDNSName_ParseIP name H). Qed.

(** X16: a text accepted as a DNS name is never an IP literal: [ParseIP]
    rejects it, with and without bracket trimming, it is neither IPv4 nor
    IPv6, and [FormatValidIp] leaves it as it is. *)
Theorem ValidateDNSName_not_ip (name : string) :
  ValidateDNSName name = true →
  net.ParseIP name = []
  ∧ net.ParseIP (strings.Trim name "[]") = []
  ∧ IsIpv4 name = false ∧ IsIpv6 name = false
  ∧ FormatValidIp name = name.
Proof.
  intros H. pose proof (ValidateDNSName_ParseIP name H) as Hparse.
  rewrite (ValidateDNSName_Trim name H).
  unfold IsIpv4, IsIpv6, FormatValidIp. rewrite (ValidateDNSName_Trim name H), Hparse.
  repeat split; reflexivity.
Qed.

Lemma ValidateDNSName_not_ip_witness :
  net.ParseIP "mt.example.com" = []
  ∧ net.ParseIP (strings.Trim "mt.example.com" "[]") = []
  ∧ IsIpv4 "mt.example.com" = false ∧ IsIpv6 "mt.example.com" = false
  ∧ FormatValidIp "mt.example.com" = "mt.example.com".
Proof. apply (ValidateDNSName_not_ip "mt.example.com"). vm_compute. reflexivity. Defined.

(** ** Volume handles once more *)

Lemma ValidateFssId_serialize f m e :
  f ≠ "" → strings.Index f ":" = -1 → e ≠ "" → strings.Index e ":" = -1 →
  validMountTarget m = true →
  ValidateFssId (serialize {| FilesystemOcid := f; MountTargetIPAddress := m;
                              FsExportPath := e |})
  = {| FilesystemOcid := f; MountTargetIPAddress := FormatValidIp m; FsExportPath := e |}.
Proof.
  intros. unfold serialize. cbn [FilesystemOcid MountTargetIPAddress FsExportPath].
  apply ValidateFssId_compose; try done. now apply validMountTarget_FormatValidIp.
Qed.

(** X17: one round trip brings a handle to a normal form: serialising and
    parsing what a round trip returned gives it back unchanged, and what is
    serialised is always accepted.  The first round trip already returns
    the handle unchanged when the mount target is an IPv4 literal, a DNS
    name or a text that starts with a bracket. *)
Theorem ValidateFssId_round_trip_normal (id : string) :
  accepted id = true →
  accepted (serialize (ValidateFssId id)) = true
  ∧ ValidateFssId (serialize (ValidateFssId (serialize (ValidateFssId id))))
    = ValidateFssId (serialize (ValidateFssId id))
  ∧ (IsIpv4 (MountTargetIPAddress (ValidateFssId id)) = true
     ∨ ValidateDNSName (MountTargetIPAddress (ValidateFssId id)) = true
     ∨ net.startsWith "[" (MountTargetIPAddress (ValidateFssId id)) = true →
     ValidateFssId (serialize (ValidateFssId id)) = ValidateFssId id).
Proof.
  intros H.
  destruct (ValidateFssId_split id H) as (f & m & e & _ & Hf & Hfc & He & Hec & Hm & ->).
  cbn [MountTargetIPAddress].
  pose proof (validMountTarget_FormatValidIp m Hm) as Hm'.
  rewrite (ValidateFssId_serialize f m e) by done.
  rewrite (ValidateFssId_serialize f (FormatValidIp m) e) by done.
  split; [|split].
  - destruct (accepted (serialize _)) eqn:E; [reflexivity|].
    apply ValidateFssId_rejected in E. rewrite (ValidateFssId_serialize f m e) in E by done.
    injection E as -> _ _. done.
  - f_equal. destruct (FormatValidIp_cases m) as [E|[_ E]]; [now rewrite !E|].
    rewrite E. apply FormatValidIp_bracket.
  - intros Hcase. f_equal. destruct Hcase as [H4|[Hd|Hb]].
    + unfold IsIpv4 in H4. unfold FormatValidIp. now rewrite H4.
    + now apply ValidateDNSName_FormatValidIp.
    + destruct m as [|c w]; [discriminate|]. cbn in Hb.
      apply Ascii.eqb_eq in Hb as ->. apply FormatValidIp_bracket.
Qed.

Lemma ValidateFssId_round_trip_normal_witness :
  accepted (serialize (ValidateFssId "fs-1:fd00::1:/a")) = true
  ∧ ValidateFssId (serialize (ValidateFssId (serialize (ValidateFssId "fs-1:fd00::1:/a"))))
    = ValidateFssId (serialize (ValidateFssId "fs-1:fd00::1:/a"))
  ∧ (IsIpv4 (MountTargetIPAddress (ValidateFssId "fs-1:fd00::1:/a")) = true
     ∨ ValidateDNSName (MountTargetIPAddress (ValidateFssId "fs-1:fd00::1:/a")) = true
     ∨ net.startsWith "[" (MountTargetIPAddress (ValidateFssId "fs-1:fd00::1:/a")) = true →
     ValidateFssId (serialize (ValidateFssId "fs-1:fd00::1:/a"))
     = ValidateFssId "fs-1:fd00::1:/a").
Proof. apply (ValidateFssId_round_trip_normal "fs-1:fd00::1:/a"). vm_compute. reflexivity. Defined.

(** ** Reading the synthesised address back *)

Section parse_back.
Import net.

Lemma hexShape_all : forallb hexShape (upTo 65536) = true.
Proof. vm_compute. reflexivity. Qed.

Lemma appendHex_shape x :
  0 <= x < 65536 →
  ∃ c r, appendHex x = String c r
         ∧ Ascii.eqb c ":" = false ∧ Ascii.eqb c "." = false
         ∧ strings.Index (appendHex x) "%" = -1.
Proof.
  intros H. pose proof hexShape_all as Hall. rewrite forallb_forall in Hall.
  specialize (Hall x (upTo_spec 65536 x H)). unfold hexShape in Hall.
  destruct (appendHex x) as [|c r] eqn:E; [discriminate|].
  repeat (apply andb_true_iff in Hall as [Hall ?]).
  exists c, r. rewrite negb_true_iff in *. rewrite Z.eqb_eq in *. done.
Qed.

Lemma groupBytes_all :
  forallb (λ a, forallb (groupBytes a) (upTo 256)) (upTo 256) = true.
Proof. vm_compute. reflexivity. Qed.

Lemma groupBytes_spec a b :
  isByte a → isByte b →
  Z.shiftr (Z.lor (Z.shiftl a 8) b) 8 mod 256 = a ∧ Z.lor (Z.shiftl a 8) b mod 256 = b.
Proof.
  intros Ha Hb. pose proof groupBytes_all as Hall.
  rewrite forallb_forall in Hall. specialize (Hall a (upTo_spec 256 a Ha)).
  rewrite forallb_forall in Hall. specialize (Hall b (upTo_spec 256 b Hb)).
  unfold groupBytes in Hall. apply andb_true_iff in Hall as [H1 H2].
  cbn zeta in *. rewrite Z.eqb_eq in *. done.
Qed.

Lemma Index_absent_app s t c :
  strings.Index s c = -1 → strings.Index t c = -1 → strings.Index (s ++ t) c = -1.
Proof.
  intros Hs Ht. induction s as [|a s IH]; cbn [String.append strings.Index] in *; [done|].
  destruct (Ascii.eqb a c); [discriminate|].
  pose proof (Index_range s c).
  destruct (Z.ltb_spec (strings.Index s c) 0); [|lia].
  rewrite IH by lia. reflexivity.
Qed.

(** One round of the loop of [parseIPv6] that reads a group of hex digits. *)
Lemma parseIPv6Loop_group rounds s ip ellipsis i off acc after :
  i < 16 → scanHex 0 0 s = Some (off, acc, after) → 0 < off →
  startsWith "." after = false →
  parseIPv6Loop (S rounds) s ip ellipsis i
  = let ip' := <[Z.to_nat (i + 1) := acc mod 256]>
                 (<[Z.to_nat i := Z.shiftr acc 8 mod 256]> ip) in
    if isEmpty after then Some (after, ip', ellipsis, i + 2)
    else if negb (startsWith ":" after) then None
    else if isEmpty (tail after) then None
    else if startsWith ":" (tail after) then
      if 0 <=? ellipsis then None
      else if isEmpty (tail (tail after)) then Some (tail (tail after), ip', i + 2, i + 2)
      else parseIPv6Loop rounds (tail (tail after)) ip' (i + 2) (i + 2)
    else parseIPv6Loop rounds (tail after) ip' ellipsis (i + 2).
Proof.
  intros Hi Hs Hoff Hdot. cbn [parseIPv6Loop]. rewrite Hs, Hdot.
  destruct (Z.ltb_spec i 16); [|lia]. destruct (Z.eqb_spec off 0); [lia|]. reflexivity.
Qed.

(** The loop on a text that starts with the printed prefix: two groups and
    the ellipsis are read, then the tail. *)
Lemma parseIPv6Loop_prefix T :
  parseIPv6Loop 8 ("fd00:c1::" ++ T) zeros16 (-1) 0
  = if isEmpty T then Some (T, afterPrefix, 4, 4)
    else parseIPv6Loop 6 T afterPrefix 4 4.
Proof. reflexivity. Qed.

(** [ParseIP] of a printed iSCSI address gives the bytes that were printed. *)
Lemma ParseIP_iscsi a b c d :
  isByte a → isByte b → isByte c → isByte d →
  ParseIP ("fd00:c1::" ++ iscsiTail (Z.lor (Z.shiftl a 8) b) (Z.lor (Z.shiftl c 8) d))
  = (iscsiPrefixBytes ++ [a; b; c; d])%list.
Proof.
  intros Ha Hb Hc Hd.
  destruct (group_spec a b Ha Hb) as (_ & _ & Hg6).
  destruct (group_spec c d Hc Hd) as (_ & _ & Hg7).
  destruct (groupBytes_spec a b Ha Hb) as [Ea Eb].
  destruct (groupBytes_spec c d Hc Hd) as [Ec Ed].
  cbn zeta in Hg6, Hg7.
  set (g6 := Z.lor (Z.shiftl a 8) b) in *. set (g7 := Z.lor (Z.shiftl c 8) d) in *.
  destruct (appendHex_shape g6 Hg6) as (c6 & r6 & E6 & Hcol6 & Hdot6 & Hpct6).
  destruct (appendHex_shape g7 Hg7) as (c7 & r7 & E7 & Hcol7 & Hdot7 & Hpct7).
  destruct (scanHex_appendHex g6 Hg6) as (n6 & S6 & Hn6).
  destruct (scanHex_appendHex g7 Hg7) as (n7 & S7 & Hn7).
  assert (Hpct : strings.Index (iscsiTail g6 g7) "%" = -1).
  { unfold iscsiTail. destruct (g6 =? 0); [destruct (g7 =? 0); [reflexivity|exact Hpct7]|].
    apply Index_absent_app; [exact Hpct6|].
    change (":" ++ appendHex g7) with (String ":" (appendHex g7)).
    cbn [strings.Index]. rewrite Hpct7. reflexivity. }
  assert (Hne7 : isEmpty (appendHex g7) = false) by (rewrite E7; reflexivity).
  assert (Hst7 : startsWith ":" (appendHex g7) = false) by (rewrite E7; exact Hcol7).
  assert (Hparse : parseIPv6 ("fd00:c1::" ++ iscsiTail g6 g7)
                   = Some (iscsiPrefixBytes ++ [a; b; c; d])%list).
  { unfold parseIPv6.
    change (startsWith ":" ("fd00:c1::" ++ iscsiTail g6 g7)) with false. cbn [andb].
    rewrite parseIPv6Loop_prefix. unfold iscsiTail.
    destruct (Z.eqb_spec g6 0) as [Hz6|Hnz6].
    - assert (a = 0 ∧ b = 0) as [-> ->].
      { rewrite Hz6 in Ea, Eb. cbn in Ea, Eb. done. }
      destruct (Z.eqb_spec g7 0) as [Hz7|Hnz7].
      + assert (c = 0 ∧ d = 0) as [-> ->].
        { rewrite Hz7 in Ec, Ed. cbn in Ec, Ed. done. }
        reflexivity.
      + rewrite Hne7.
        erewrite parseIPv6Loop_group; [|lia|exact S7|exact Hn7|reflexivity].
        cbn [isEmpty]. cbn zeta. rewrite Ec, Ed. reflexivity.
    - assert (isEmpty (appendHex g6 ++ ":" ++ appendHex g7) = false) as ->
        by (rewrite E6; reflexivity).
      erewrite parseIPv6Loop_group;
        [|lia|exact (scanHex_app _ _ _ _ _ (":" ++ appendHex g7) S6 eq_refl)|exact Hn6
         |reflexivity].
      cbn zeta. change (tail (":" ++ appendHex g7)) with (appendHex g7).
      change (isEmpty (":" ++ appendHex g7)) with false.
      change (startsWith ":" (":" ++ appendHex g7)) with true. cbn [negb].
      rewrite Hne7, Hst7.
      erewrite parseIPv6Loop_group; [|lia|exact S7|exact Hn7|reflexivity].
      cbn [isEmpty]. cbn zeta. rewrite Ea, Eb, Ec, Ed. reflexivity. }
  unfold ParseIP.
  assert (Haddr : parseAddr ("fd00:c1::" ++ iscsiTail g6 g7) ("fd00:c1::" ++ iscsiTail g6 g7)
                  = if 0 <=? strings.Index ("fd00:c1::" ++ iscsiTail g6 g7) "%" then None
                    else parseIPv6 ("fd00:c1::" ++ iscsiTail g6 g7)) by reflexivity.
  rewrite Haddr. rewrite Index_absent_app by (reflexivity || exact Hpct).
  cbn [Z.leb Z.compare]. now rewrite Hparse.
Qed.

End parse_back.

(** X18: the text that [ConvertIscsiIpFromIpv4ToIpv6] returns reads back,
    with [net.ParseIP], as the bytes of the iSCSI prefix followed by the
    four IPv4 bytes of the argument, so the IPv4 address is recovered from
    its last four bytes; the text is not an IPv4 address itself, and
    converting it again fails. *)
Theorem ConvertIscsiIpFromIpv4ToIpv6_reads_back (ipv4IscsiIp r : string) :
  ConvertIscsiIpFromIpv4ToIpv6 ipv4IscsiIp = Ok r →
  net.ParseIP r = (iscsiPrefixBytes ++ net.To4 (net.ParseIP ipv4IscsiIp))%list
  ∧ drop 12 (net.ParseIP r) = net.To4 (net.ParseIP ipv4IscsiIp)
  ∧ IsIpv4 r = false
  ∧ ConvertIscsiIpFromIpv4ToIpv6 r = Err (InvalidIscsiIp r).
Proof.
  intros H.
  destruct (Convert_parsed ipv4IscsiIp)
    as [E|(a & b & c & d & E & (Ha & Hb & Hc & Hd) & Hok & Hstr)].
  { rewrite (Convert_err _ E) in H. discriminate. }
  assert (r = "fd00:c1::" ++ iscsiTail (Z.lor (Z.shiftl a 8) b) (Z.lor (Z.shiftl c 8) d))
    as -> by congruence.
  rewrite E. rewrite (ParseIP_iscsi a b c d Ha Hb Hc Hd).
  assert (Hto4 : net.To4 (iscsiPrefixBytes ++ [a; b; c; d])%list = []) by reflexivity.
  repeat split.
  - unfold IsIpv4. rewrite (ParseIP_iscsi a b c d Ha Hb Hc Hd), Hto4. reflexivity.
  - apply Convert_err. now rewrite (ParseIP_iscsi a b c d Ha Hb Hc Hd).
Qed.

Lemma ConvertIscsiIpFromIpv4ToIpv6_reads_back_witness :
  net.ParseIP "fd00:c1::cb00:7105"
  = (iscsiPrefixBytes ++ net.To4 (net.ParseIP "203.0.113.5"))%list
  ∧ drop 12 (net.ParseIP "fd00:c1::cb00:7105") = net.To4 (net.ParseIP "203.0.113.5")
  ∧ IsIpv4 "fd00:c1::cb00:7105" = false
  ∧ ConvertIscsiIpFromIpv4ToIpv6 "fd00:c1::cb00:7105"
    = Err (InvalidIscsiIp "fd00:c1::cb00:7105").
Proof.
  apply (ConvertIscsiIpFromIpv4ToIpv6_reads_back "203.0.113.5" "fd00:c1::cb00:7105").
  vm_compute. reflexivity.
Defined.

(** ** What [ParseIP] accepts *)

Section parse_shape.
Import net.

Ltac split_cases H :=
  repeat match type of H with
         | context [if ?b then _ else _] => destruct b eqn:?; try discriminate H
         | context [match ?x with _ => _ end] => destruct x eqn:?; try discriminate H
         end.

Lemma isDigit_ipChar c : isDigit c = true → ipChar c = true.
Proof. destruct c as [[] [] [] [] [] [] [] []]; vm_compute; congruence. Qed.

Lemma ipChar_not_bracket c : ipChar c = true → negb (strings.inCutset "[]" c) = true.
Proof. destruct c as [[] [] [] [] [] [] [] []]; vm_compute; congruence. Qed.

Lemma allIpChars_app s t : allIpChars (s ++ t) = allIpChars s && allIpChars t.
Proof.
  unfold allIpChars. induction s as [|c s IH]; cbn; [reflexivity|].
  now rewrite IH, andb_assoc.
Qed.

Lemma allIpChars_cons c s : allIpChars (String c s) = ipChar c && allIpChars s.
Proof. reflexivity. Qed.

Lemma parseIPv4Fields_shape s : ∀ prev val pos digLen fields r,
  length fields = 4%nat →
  parseIPv4Fields prev val pos digLen fields s = Some r →
  length r = 4%nat ∧ allIpChars s = true.
Proof.
  induction s as [|c s IH]; intros prev val pos digLen fields r Hlen H;
    cbn [parseIPv4Fields] in H.
  - split_cases H. injection H as <-. now rewrite length_insert.
  - rewrite allIpChars_cons. destruct (isDigit c) eqn:Hd.
    + rewrite (isDigit_ipChar c Hd). split_cases H. eapply IH; eassumption.
    + destruct (Ascii.eqb_spec c ".") as [->|]; [|discriminate].
      split_cases H. eapply IH; [|eassumption]. now rewrite length_insert.
Qed.

Lemma scanHex_shape s : ∀ off acc off' acc' after,
  scanHex off acc s = Some (off', acc', after) →
  ∃ h, s = h ++ after ∧ allIpChars h = true.
Proof.
  induction s as [|c s IH]; intros off acc off' acc' after H; cbn [scanHex] in H.
  - injection H as <- <- <-. now exists "".
  - destruct (hexVal c) as [d|] eqn:Hc.
    + split_cases H. apply IH in H as (h & -> & Hh). exists (String c h). split; [done|].
      rewrite allIpChars_cons, Hh. unfold ipChar. now rewrite Hc.
    + injection H as <- <- <-. now exists "".
Qed.

Lemma copyAt_length dst n src :
  length dst = 16%nat → length src = 4%nat → (n + 4 <= 16)%nat →
  length (copyAt dst n src) = 16%nat.
Proof.
  intros Hd Hs Hn. unfold copyAt. rewrite !length_app, !length_take, length_drop. lia.
Qed.

Lemma startsWith_colon s : startsWith ":" s = true → s = String ":" (tail s).
Proof. destruct s as [|c s]; cbn; [discriminate|]. now intros ->%Ascii.eqb_eq. Qed.

(** The loop of [parseIPv6] keeps sixteen bytes, an even position up to
    16 and an ellipsis before it, and what it has read is made of hex
    digits, colons and dots. *)
Lemma parseIPv6Loop_shape rounds : ∀ s ip ellipsis i s' ip' ellipsis' i',
  length ip = 16%nat → 0 <= i <= 16 → Z.even i = true → -1 <= ellipsis <= i →
  parseIPv6Loop rounds s ip ellipsis i = Some (s', ip', ellipsis', i') →
  length ip' = 16%nat ∧ 0 <= i' <= 16 ∧ -1 <= ellipsis' <= i'
  ∧ ∃ consumed, s = consumed ++ s' ∧ allIpChars consumed = true.
Proof.
  induction rounds as [|rounds IH]; intros s ip ellipsis i s' ip' ellipsis' i' Hlen Hi Hev He H;
    cbn [parseIPv6Loop] in H.
  - injection H as <- <- <- <-. repeat split; try lia; try done. now exists "".
  - destruct (Z.ltb_spec i 16) as [Hlt|]; cbn [negb] in H;
      [|injection H as <- <- <- <-; repeat split; try lia; try done; now exists ""].
    assert (Hi14 : i <= 14).
    { destruct (Z.eq_dec i 15) as [->|]; [discriminate|lia]. }
    assert (Hev2 : Z.even (i + 2) = true) by (rewrite Z.even_add, Hev; reflexivity).
    destruct (scanHex 0 0 s) as [[[off acc] after]|] eqn:Hs; [|discriminate].
    apply scanHex_shape in Hs as (h & -> & Hh).
    destruct (off =? 0); [discriminate|].
    destruct (startsWith "." after) eqn:Hdot.
    + split_cases H. injection H as <- <- <- <-.
      match goal with E : parseIPv4 _ = Some _ |- _ =>
        apply parseIPv4Fields_shape in E as [Hl Hc]; [|reflexivity] end.
      assert (i + 4 <= 16) by (destruct (Z.ltb_spec 16 (i + 4)); [discriminate|lia]).
      repeat split; try lia.
      * apply copyAt_length; [done|done|lia].
      * exists (h ++ after). now rewrite append_nil_r.
    + set (ip2 := <[Z.to_nat (i + 1) := acc mod 256]>
                    (<[Z.to_nat i := Z.shiftr acc 8 mod 256]> ip)) in *.
      assert (Hlen2 : length ip2 = 16%nat) by (unfold ip2; now rewrite !length_insert).
      cbn zeta in H.
      destruct (isEmpty after) eqn:Hemp.
      { injection H as <- <- <- <-. repeat split; try lia; try done.
        apply isEmpty_spec in Hemp as ->. exists h. now rewrite append_nil_r. }
      destruct (startsWith ":" after) eqn:Hcol; cbn [negb] in H; [|discriminate].
      apply startsWith_colon in Hcol. destruct (isEmpty (tail after)) eqn:Hemp2; [discriminate|].
      destruct (startsWith ":" (tail after)) eqn:Hcol2.
      * apply startsWith_colon in Hcol2.
        destruct (0 <=? ellipsis); [discriminate|].
        assert (Hread : allIpChars (h ++ "::") = true) by (rewrite allIpChars_app, Hh; reflexivity).
        assert (Hs : h ++ after = (h ++ "::") ++ tail (tail after)).
        { rewrite Hcol, Hcol2 at 1. now rewrite !append_assoc. }
        destruct (isEmpty (tail (tail after))) eqn:Hemp3.
        -- injection H as <- <- <- <-. repeat split; try lia; try done. eauto.
        -- apply IH in H as (Hl & Hi' & He' & consumed & Hc & Hall); try lia; try done.
           repeat split; try lia; try done.
           exists ((h ++ "::") ++ consumed). split.
           ++ rewrite Hs, Hc. now rewrite !append_assoc.
           ++ now rewrite allIpChars_app, Hread, Hall.
      * apply IH in H as (Hl & Hi' & He' & consumed & Hc & Hall); try lia; try done.
        repeat split; try lia; try done.
        exists ((h ++ ":") ++ consumed). split.
        -- rewrite Hcol at 1. rewrite Hc. now rewrite !append_assoc.
        -- rewrite !allIpChars_app, Hh, Hall. reflexivity.
Qed.

Lemma parseIPv6_shape s r :
  parseIPv6 s = Some r → length r = 16%nat ∧ allIpChars s = true.
Proof.
  unfold parseIPv6. intros H.
  destruct (startsWith ":" s && startsWith ":" (tail s)) eqn:Hlead.
  - apply andb_true_iff in Hlead as [H1 H2].
    apply startsWith_colon in H1. apply startsWith_colon in H2.
    assert (Hs : s = "::" ++ tail (tail s)) by (rewrite H1, H2 at 1; reflexivity).
    cbn [andb] in H. destruct (isEmpty (tail (tail s))) eqn:Hemp.
    + injection H as <-. split; [reflexivity|].
      apply isEmpty_spec in Hemp. rewrite Hs, Hemp. reflexivity.
    + destruct (parseIPv6Loop 8 (tail (tail s)) zeros16 0 0)
        as [[[[s' ip'] e'] i']|] eqn:Hloop; [|discriminate].
      apply parseIPv6Loop_shape in Hloop as (Hl & Hi & He & consumed & Hc & Hall);
        try done; try lia.
      destruct (isEmpty s') eqn:Hs'; cbn [negb] in H; [|discriminate].
      apply isEmpty_spec in Hs' as ->. rewrite append_nil_r in Hc.
      assert (Hclean : allIpChars s = true).
      { rewrite Hs, Hc, allIpChars_app, Hall. reflexivity. }
      split; [|exact Hclean]. split_cases H; injection H as <-; [|done].
      unfold expandEllipsis. rewrite !length_app, length_replicate, !length_take, length_drop.
      destruct (Z.ltb_spec i' 16), (Z.ltb_spec e' 0); try discriminate; lia.
  - cbn [andb] in H.
    destruct (parseIPv6Loop 8 s zeros16 (-1) 0)
      as [[[[s' ip'] e'] i']|] eqn:Hloop; [|discriminate].
    apply parseIPv6Loop_shape in Hloop as (Hl & Hi & He & consumed & Hc & Hall);
      try done; try lia.
    destruct (isEmpty s') eqn:Hs'; cbn [negb] in H; [|discriminate].
    apply isEmpty_spec in Hs' as ->. rewrite append_nil_r in Hc. subst consumed.
    split; [|exact Hall]. split_cases H; injection H as <-; [|done].
    unfold expandEllipsis. rewrite !length_app, length_replicate, !length_take, length_drop.
    destruct (Z.ltb_spec i' 16), (Z.ltb_spec e' 0); try discriminate; lia.
Qed.

Lemma parseAddr_shape whole : ∀ t r,
  parseAddr whole t = Some r → length r = 16%nat ∧ allIpChars whole = true.
Proof.
  induction t as [|c t IH]; intros r H; cbn [parseAddr] in H; [discriminate|].
  split_cases H.
  - injection H as <-.
    match goal with E : parseIPv4 _ = Some _ |- _ =>
      apply parseIPv4Fields_shape in E as [Hl Hc]; [|reflexivity] end.
    split; [|done]. cbn [length]. rewrite Hl. reflexivity.
  - now apply parseIPv6_shape.
  - eauto.
Qed.

(** What [ParseIP] accepts has sixteen bytes and is made of hex digits,
    colons and dots. *)
Lemma ParseIP_shape s :
  ParseIP s = [] ∨ (length (ParseIP s) = 16%nat ∧ allIpChars s = true).
Proof.
  unfold ParseIP. destruct (parseAddr s s) as [ip|] eqn:E; [right|now left].
  now apply parseAddr_shape in E.
Qed.

Lemma allIpChars_Trim s : allIpChars s = true → strings.Trim s "[]" = s.
Proof.
  intros H. apply Trim_clean. unfold allIpChars in H.
  rewrite forallb_forall in H |- *. intros c Hc. now apply ipChar_not_bracket, H.
Qed.

End parse_shape.

(** X19: every text that [net.ParseIP] accepts is classified, as IPv4 or as
    IPv6 and never as both; it holds no bracket, and [FormatValidIp]
    returns it unchanged when it is IPv4 and between brackets when it is
    IPv6, so the trimming inside [FormatValidIp] never removes anything. *)
Theorem ParseIP_classified (ipAddress : string) :
  net.ParseIP ipAddress ≠ [] →
  xorb (IsIpv4 ipAddress) (IsIpv6 ipAddress) = true
  ∧ strings.Trim ipAddress "[]" = ipAddress
  ∧ FormatValidIp ipAddress
    = (if IsIpv6 ipAddress then "[" ++ ipAddress ++ "]" else ipAddress).
Proof.
  intros Hne. destruct (ParseIP_shape ipAddress) as [E|[Hlen Hclean]]; [done|].
  pose proof (allIpChars_Trim ipAddress Hclean) as Htrim.
  assert (H16 : net.To16 (net.ParseIP ipAddress) = net.ParseIP ipAddress).
  { unfold net.To16. rewrite Hlen. reflexivity. }
  assert (Hnil : net.isNil (net.ParseIP ipAddress) = false).
  { destruct (net.ParseIP ipAddress); [done|reflexivity]. }
  unfold IsIpv4, IsIpv6, FormatValidIp. rewrite Htrim, H16, Hnil.
  destruct (net.isNil (net.To4 (net.ParseIP ipAddress))); repeat split; reflexivity.
Qed.

Lemma ParseIP_classified_witness :
  xorb (IsIpv4 "fd00::1") (IsIpv6 "fd00::1") = true
  ∧ strings.Trim "fd00::1" "[]" = "fd00::1"
  ∧ FormatValidIp "fd00::1" = (if IsIpv6 "fd00::1" then "[" ++ "fd00::1" ++ "]" else "fd00::1").
Proof. apply (ParseIP_classified "fd00::1"). vm_compute. discriminate. Defined.
